(** * RAG chatbot on Tunisian archaeological sites: chunker, retriever,
      scope classifier and query orchestrator

    A shallow embedding of [ingest.py] (DocumentIngester) and [rag.py]
    (RAGSystem), and the properties of the specification checked on it.

    Conventions of the embedding:
    - a Python [str] is a list of Unicode code points ([list N]);
    - a Python [int] is a [Z]; slices and [rfind] take [Z] indices and
      follow CPython's index adjustment (negative indices count from the
      end, out-of-range indices are clamped);
    - a finite Python [float] is represented by its exact rational value
      ([Q]), so the comparisons of floats are exact; the operations that
      round their result (the division, the subtraction and [round]) are
      parameters ([float_ops]), and [binary64] is their instance for
      IEEE 754 binary64 and CPython's [round];
    - a Python [dict] with string keys is a [gmap (list N) _];
    - a [while] loop runs on fuel and returns [None] when the fuel is
      exhausted before the loop condition fails;
    - a raised exception is the [Raise] case of [pyresult];
    - the embedding model, the vector index and the generator are
      parameters; the calls that [query] makes to them are recorded in a
      trace;
    - the records that [ingest.py] writes to its logger are appended to a
      log; the logger calls of [rag.py] and the [print]s are left out. *)

From Stdlib Require Import ZArith QArith Qround Qabs Lia Lqa List String Ascii
  DecimalString.
From Stdlib Require Import Sorted Permutation.
From stdpp Require Import base gmap list.

Open Scope Z_scope.

(* ===================================================================== *)
(** * Python built-ins used by the code *)
(* ===================================================================== *)

Module Py.

(** UTF-8 decoding of a literal, so that the keywords of the source can be
    written as they appear there. *)
Fixpoint utf8 (bs : list N) (acc : N) (need : nat) : list N :=
  match bs with
  | [] => []
  | b :: bs' =>
      match need with
      | O =>
          if (b <? 128)%N then b :: utf8 bs' 0%N 0%nat
          else if (b <? 224)%N then utf8 bs' (b - 192)%N 1%nat
          else if (b <? 240)%N then utf8 bs' (b - 224)%N 2%nat
          else utf8 bs' (b - 240)%N 3%nat
      | S k =>
          let acc' := (acc * 64 + (b - 128))%N in
          match k with
          | O => acc' :: utf8 bs' 0%N 0%nat
          | S _ => utf8 bs' acc' k
          end
      end
  end.

Definition lit (s : string) : list N :=
  utf8 (map N_of_ascii (list_ascii_of_string s)) 0%N 0%nat.

(** [len(x)] *)
Definition len {A} (l : list A) : Z := Z.of_nat (length l).

(** Index adjustment of a slice bound ([PySlice_AdjustIndices], step 1). *)
Definition adjust (n i : Z) : Z :=
  if i <? 0 then Z.max 0 (i + n) else Z.min i n.

(** [l[i:j]] *)
Definition slice {A} (l : list A) (i j : Z) : list A :=
  let a := adjust (len l) i in
  let b := adjust (len l) j in
  take (Z.to_nat (b - a)) (drop (Z.to_nat a) l).

(** [l[:j]] *)
Definition slice_to {A} (l : list A) (j : Z) : list A := slice l 0 j.

(** [s.startswith(p)] *)
Definition startswith (s p : list N) : bool :=
  bool_decide (take (length p) s = p).

(** [sub in s] *)
Fixpoint contains (sub s : list N) : bool :=
  startswith s sub ||
  match s with
  | [] => false
  | _ :: s' => contains sub s'
  end.

(** The start index of [str.find]/[str.rfind] is made non-negative but not
    clamped to the length ([ADJUST_INDICES]). *)
Definition adjust_start (n i : Z) : Z :=
  if i <? 0 then Z.max 0 (i + n) else i.

(** Candidates [a + cnt - 1], ..., [a], highest first. *)
Fixpoint rfind_down (s sub : list N) (a : Z) (cnt : nat) : Z :=
  match cnt with
  | O => -1
  | S c =>
      let p := a + Z.of_nat c in
      if startswith (drop (Z.to_nat p) s) sub then p
      else rfind_down s sub a c
  end.

(** [s.rfind(sub, start, end)]: the highest index [p] with
    [s[p:p+len(sub)] == sub] inside [s[start:end]], or [-1]. *)
Definition rfind (s sub : list N) (start end_ : Z) : Z :=
  let a := adjust_start (len s) start in
  let b := adjust (len s) end_ in
  rfind_down s sub a (Z.to_nat (b - len sub - a + 1)).

(** [str.isspace] on one code point: the complete list of the Unicode
    code points that [str.strip()] removes. *)
Definition isspace (c : N) : bool :=
  ((9 <=? c) && (c <=? 13) || (28 <=? c) && (c <=? 32) ||
   (c =? 133) || (c =? 160) || (c =? 5760) ||
   (8192 <=? c) && (c <=? 8202) || (c =? 8232) || (c =? 8233) ||
   (c =? 8239) || (c =? 8287) || (c =? 12288))%N.

Fixpoint lstrip (s : list N) : list N :=
  match s with
  | [] => []
  | c :: s' => if isspace c then lstrip s' else s
  end.

Definition rstrip (s : list N) : list N := rev (lstrip (rev s)).

(** [s.strip()] *)
Definition strip (s : list N) : list N := rstrip (lstrip s).

(** The parts of the Unicode character database that the code reaches
    through [str.lower] and the regular-expression class [\w] and that lie
    beyond Latin-1 are taken as parameters. *)
Record unicode := {
  u_lower : list N -> list N;
  u_isalnum : N -> bool
}.

Definition latin1_lower (c : N) : N :=
  if ((65 <=? c) && (c <=? 90) ||
      (192 <=? c) && (c <=? 222) && negb (c =? 215))%N
  then (c + 32)%N else c.

(** [s.lower()] *)
Definition lower (U : unicode) (s : list N) : list N :=
  if forallb (fun c => (c <? 256)%N) s then map latin1_lower s
  else u_lower U s.

Definition latin1_word (c : N) : bool :=
  ((48 <=? c) && (c <=? 57) || (65 <=? c) && (c <=? 90) || (c =? 95) ||
   (97 <=? c) && (c <=? 122) || (c =? 170) || (c =? 178) || (c =? 179) ||
   (c =? 181) || (c =? 185) || (c =? 186) ||
   (188 <=? c) && (c <=? 190) ||
   (192 <=? c) && (c <=? 214) || (216 <=? c) && (c <=? 246) ||
   (248 <=? c) && (c <=? 255))%N.

(** A character of the class [\w]. *)
Definition is_word (U : unicode) (c : N) : bool :=
  if (c <? 256)%N then latin1_word c else u_isalnum U c || (c =? 95)%N.

(** Floating-point numbers. A finite [float] is represented by its exact
    rational value, so the comparisons of floats are the comparisons of
    [Q]; the sign of zero is not represented. The operations of the code
    that round their result are the fields of a record: the properties
    below hold for every such operations, and [binary64] further below
    gives them as IEEE 754 and CPython define them. *)
Record float_ops := {
  (** [x / y] *)
  fdiv : Q -> Q -> Q;
  (** [x - y] *)
  fsub : Q -> Q -> Q;
  (** [round(x, ndigits)] *)
  round_ndigits : Q -> Z -> Q
}.

(** Rounding to the nearest integer, ties to even. *)
Definition round_half_even (x : Q) : Z :=
  let f := Qfloor x in
  match (x - inject_Z f ?= 1 # 2)%Q with
  | Lt => f
  | Gt => f + 1
  | Eq => if Z.even f then f else f + 1
  end.

(** [2^z] for an integer [z] of any sign. *)
Definition pow2 (z : Z) : Q :=
  if 0 <=? z then inject_Z (2 ^ z) else (1 # Z.to_pos (2 ^ (- z)))%Q.

(** The exponent [e] with [2^e <= x < 2^(e+1)], for [x > 0]. *)
Definition ilog2 (x : Q) : Z :=
  let e0 := Z.log2 (Qnum x) - Z.log2 (Zpos (Qden x)) in
  if Qle_bool (pow2 e0) x then e0 else e0 - 1.

(** The binary64 number nearest to [x], ties to even: 53 significant
    bits, the least exponent of a bit being -1074 (subnormal numbers).
    Results beyond the largest finite number are not represented:
    [search] computes none from a finite distance. *)
Definition b64 (x : Q) : Q :=
  match Qnum x with
  | 0 => 0%Q
  | _ =>
      let a := Qabs x in
      let q := Z.max (ilog2 a - 52) (-1074) in
      let m := round_half_even (a / pow2 q)%Q in
      let r := Qred (inject_Z m * pow2 q)%Q in
      if Qle_bool 0 x then r else (- r)%Q
  end.

(** [10^n] *)
Definition pow10 (n : Z) : Q :=
  if 0 <=? n then inject_Z (10 ^ n) else (1 # Z.to_pos (10 ^ (- n)))%Q.

(** The operations on binary64 numbers: a division and a subtraction
    give the number nearest to the exact result; [round(x, n)] rounds
    the exact value of [x] to [n] decimals, ties to even, and gives the
    number nearest to that decimal. *)
Definition binary64 : float_ops :=
  {| fdiv := fun x y => b64 (x / y)%Q;
     fsub := fun x y => b64 (x - y)%Q;
     round_ndigits := fun x n =>
       b64 (inject_Z (round_half_even (x * pow10 n)%Q) / pow10 n)%Q |}.

(** Exceptions and results of fallible code. *)
Inductive exn :=
| KeyError (key : list N)
| IndexError
| ExternalError (message : list N).

Inductive pyresult (A : Type) :=
| Ok (a : A)
| Raise (e : exn).
Arguments Ok {A} a.
Arguments Raise {A} e.

(** [l[i]] for [i >= 0] *)
Definition index {A} (l : list A) (i : nat) : pyresult A :=
  match l !! i with
  | Some x => Ok x
  | None => Raise IndexError
  end.

(** Values stored in metadata dictionaries. *)
Inductive pyval :=
| VNone
| VStr (s : list N)
| VInt (z : Z).

(** [str(z)] for an integer. *)
Definition str_of_Z (z : Z) : list N :=
  lit (NilZero.string_of_int (Z.to_int z)).

(** [str(e)] *)
Definition str_of_exn (e : exn) : list N :=
  match e with
  | KeyError k => lit "'" ++ k ++ lit "'"
  | IndexError => lit "list index out of range"
  | ExternalError m => m
  end.

(** [str(v)] and the truth value of a metadata value. *)
Definition str_of_val (v : pyval) : list N :=
  match v with
  | VNone => lit "None"
  | VStr s => s
  | VInt z => str_of_Z z
  end.

Definition val_truthy (v : pyval) : bool :=
  match v with
  | VNone => false
  | VStr s => negb (bool_decide (s = []))
  | VInt z => negb (z =? 0)
  end.

End Py.

(* ===================================================================== *)
(** * ingest.py: DocumentIngester.chunk_text *)
(* ===================================================================== *)

Module Ingest.
Import Py.

(** A chunk: [{"text": ..., "metadata": {...}}]. *)
Record chunk := {
  c_text : list N;
  c_metadata : gmap (list N) pyval
}.

(** The delimiters tried in order: [". "], ["! "], ["? "], ["\n\n"],
    ["\n"]. *)
Definition puncts : list (list N) :=
  [lit ". "; lit "! "; lit "? "; [10%N; 10%N]; [10%N]].

(** The state of the [while] loop of [chunk_text]. *)
Record loop_state := {
  start : Z;
  chunk_id : Z;
  chunks : list chunk
}.

Section ChunkText.
(** [self.chunk_size], [self.chunk_overlap] and the arguments. *)
Variables (chunk_size chunk_overlap : Z).
Variables (text : list N) (metadata : gmap (list N) pyval).

(** The [for punct in ...] loop: the first delimiter found by [rfind]
    inside [text[start:end]] moves the cut to just after it. *)
Fixpoint natural_cut (start0 end0 : Z) (ps : list (list N)) : Z :=
  match ps with
  | [] => end0
  | punct :: ps' =>
      let punct_pos := rfind text punct start0 end0 in
      if punct_pos =? -1 then natural_cut start0 end0 ps'
      else punct_pos + len punct
  end.

(** The value of [end] when the chunk is sliced. *)
Definition window_end (start0 : Z) : Z :=
  let end0 := Z.min (start0 + chunk_size) (len text) in
  if end0 <? len text then natural_cut start0 end0 puncts else end0.

(** [{**metadata, "chunk_id": ..., "start_char": ..., "end_char": ...}] *)
Definition chunk_meta (id start0 end0 : Z) : gmap (list N) pyval :=
  <[lit "end_char" := VInt end0]>
    (<[lit "start_char" := VInt start0]>
       (<[lit "chunk_id" := VInt id]> metadata)).

(** One iteration of the loop body. *)
Definition loop_body (st : loop_state) : loop_state :=
  let end1 := window_end (start st) in
  let chunk1 := strip (slice text (start st) end1) in
  let keep := 100 <=? len chunk1 in
  let start1 := start st + (chunk_size - chunk_overlap) in
  {| start := if start1 >=? end1 then end1 else start1;
     chunk_id := if keep then chunk_id st + 1 else chunk_id st;
     chunks :=
       if keep
       then chunks st ++
            [{| c_text := chunk1;
                c_metadata := chunk_meta (chunk_id st) (start st) end1 |}]
       else chunks st |}.

(** [while start < len(text): ...] *)
Fixpoint while_loop (fuel : nat) (st : loop_state) : option loop_state :=
  if start st <? len text then
    match fuel with
    | O => None
    | S fuel' => while_loop fuel' (loop_body st)
    end
  else Some st.

Definition init_state : loop_state :=
  {| start := 0; chunk_id := 0; chunks := [] |}.

Definition chunk_text (fuel : nat) : option (list chunk) :=
  chunks <$> while_loop fuel init_state.

(** The windows [(start, end)] sliced by the first [n] iterations. *)
Fixpoint windows_from (n : nat) (st : loop_state) : list (Z * Z) :=
  match n with
  | O => []
  | S n' =>
      if start st <? len text
      then (start st, window_end (start st)) :: windows_from n' (loop_body st)
      else []
  end.

Definition windows (n : nat) : list (Z * Z) := windows_from n init_state.
End ChunkText.

(** Fields of a chunk's metadata. *)
Definition meta_int (c : chunk) (key : list N) : option Z :=
  match c_metadata c !! key with
  | Some (VInt z) => Some z
  | _ => None
  end.
Definition start_char (c : chunk) : option Z := meta_int c (lit "start_char").
Definition end_char (c : chunk) : option Z := meta_int c (lit "end_char").
Definition chunk_id_of (c : chunk) : option Z := meta_int c (lit "chunk_id").

(** ** The vector index and DocumentIngester.index_documents *)

Inductive log_record :=
| LogInfo (message : list N)
| LogWarning (message : list N)
| LogError (message : list N).

Section Ingestion.
(** An embedding vector is opaque here. *)
Variable embedding : Type.
(** [self.embedding_model.encode(texts, ...)] on a batch. *)
Variable encode_batch : list (list N) -> list embedding.
(** [_extract_metadata(content, file_path)]: the cascade of patterns is
    not the subject of a property below and stays a parameter. *)
Variable extract_metadata : list N -> list N -> gmap (list N) pyval.
(** [int(datetime.now().timestamp())] *)
Variable now : Z.

(** An entry of a collection: identifier, embedding, text, metadata. *)
Record entry := {
  e_id : list N;
  e_embedding : embedding;
  e_document : list N;
  e_metadata : gmap (list N) pyval
}.

(** The persistent client (collections by name) and the records written
    to the logger. *)
Record world := {
  store : gmap (list N) (list entry);
  log : list log_record
}.

Definition logging (r : log_record) (w : world) : world :=
  {| store := store w; log := log w ++ [r] |}.

(** [delete_collection] raises when the collection does not exist. *)
Definition delete_collection (name : list N) (w : world) : pyresult world :=
  match store w !! name with
  | Some _ => Ok {| store := delete name (store w); log := log w |}
  | None => Raise (ExternalError (lit "Collection does not exist"))
  end.

(** [create_collection] raises when the collection exists. *)
Definition create_collection (name : list N) (w : world) : pyresult world :=
  match store w !! name with
  | Some _ => Raise (ExternalError (lit "Collection already exists"))
  | None => Ok {| store := <[name := []]> (store w); log := log w |}
  end.

(** [collection.add(embeddings=, documents=, metadatas=, ids=)] *)
Fixpoint zip_entries (es : list embedding) (ds : list (list N))
    (ms : list (gmap (list N) pyval)) (ids : list (list N)) : list entry :=
  match es, ds, ms, ids with
  | e :: es', d :: ds', m :: ms', i :: ids' =>
      {| e_id := i; e_embedding := e; e_document := d; e_metadata := m |}
      :: zip_entries es' ds' ms' ids'
  | _, _, _, _ => []
  end.

Definition collection_add (name : list N) (es : list embedding)
    (ds : list (list N)) (ms : list (gmap (list N) pyval))
    (ids : list (list N)) (w : world) : world :=
  {| store :=
       <[name := default [] (store w !! name) ++ zip_entries es ds ms ids]>
         (store w);
     log := log w |}.

(** [collection.count()] *)
Definition collection_count (name : list N) (w : world) : option nat :=
  length <$> (store w !! name).

(** The ingester: its configuration; the collection is held by name. *)
Record ingester := {
  chunk_size : Z;
  chunk_overlap : Z;
  collection_name : list N
}.

(** [DocumentIngester.__init__]: the collection is deleted when it
    exists and created again, empty. [model] and [db_path] are the
    [embedding_model] and [chroma_db_path] arguments, which are logged. *)
Definition ingester_init (model db_path : list N) (cs ov : Z)
    (name : list N) (w : world) : pyresult (ingester * world) :=
  let w0 :=
    logging (LogInfo (lit "💾 Initialisation de ChromaDB: " ++ db_path))
      (logging
         (LogInfo (lit "📦 Chargement du modèle d'embedding: " ++ model)) w) in
  let w1 :=
    match delete_collection name w0 with
    | Ok w' => logging (LogInfo (lit "🗑️  Ancienne collection supprimée")) w'
    | Raise _ => w0
    end in
  match create_collection name w1 with
  | Ok w2 =>
      Ok ({| chunk_size := cs; chunk_overlap := ov; collection_name := name |},
          logging (LogInfo (lit "✅ Ingester initialisé")) w2)
  | Raise e => Raise e
  end.

(** A loaded document: [{"content", "metadata", "filename"}]. *)
Record document := {
  content : list N;
  doc_metadata : gmap (list N) pyval;
  filename : list N
}.

(** [metadata.get('site', 'N/A')] in the f-string of [load_documents]. *)
Definition site_label (m : gmap (list N) pyval) : list N :=
  match m !! lit "site" with
  | Some v => str_of_val v
  | None => lit "N/A"
  end.

(** The [for file_path in txt_files] loop of [load_documents]: a file
    whose reading raises is logged and skipped. *)
Fixpoint load_files (files : list (list N * pyresult (list N)))
    (documents0 : list document) (w : world) : list document * world :=
  match files with
  | [] => (documents0, w)
  | (name, Ok c) :: files' =>
      let m := extract_metadata c name in
      load_files files'
        (documents0 ++
         [{| content := c; doc_metadata := m; filename := name |}])
        (logging
           (LogInfo (lit "  ✓ " ++ name ++ lit " | Site: " ++ site_label m)) w)
  | (name, Raise e) :: files' =>
      load_files files' documents0
        (logging
           (LogError (lit "  ✗ Erreur " ++ name ++ lit ": " ++ str_of_exn e))
           w)
  end.

(** [load_documents] over the [*.txt] files of an existing corpus
    directory. *)
Definition load_documents (files : list (list N * pyresult (list N)))
    (w : world) : list document * world :=
  load_files files []
    (logging
       (LogInfo (lit "📄 Trouvé " ++ str_of_Z (len files) ++
                 lit " fichiers .txt")) w).

(** The [for doc in documents] loop of [index_documents]; [None] when a
    [chunk_text] runs out of fuel. *)
Fixpoint chunk_documents (ing : ingester) (fuel : nat)
    (docs : list document) (all_chunks : list chunk) (w : world)
    : option (list chunk * world) :=
  match docs with
  | [] => Some (all_chunks, w)
  | d :: docs' =>
      match chunk_text (chunk_size ing) (chunk_overlap ing) (content d)
              (doc_metadata d) fuel with
      | None => None
      | Some chunks0 =>
          chunk_documents ing fuel docs' (all_chunks ++ chunks0)
            (logging
               (LogInfo (lit "  📝 " ++ filename d ++ lit ": " ++
                         str_of_Z (len chunks0) ++ lit " chunks")) w)
      end
  end.

(** The [for i in range(0, len(ids), batch_size)] loop, one [add] per
    batch. *)
Definition add_batches (name : list N) (es : list embedding)
    (ds : list (list N)) (ms : list (gmap (list N) pyval))
    (ids : list (list N)) (w : world) : world :=
  let batch_size := 50%nat in
  let total_batches := ((length ids + batch_size - 1) / batch_size)%nat in
  fold_left
    (fun w j =>
       let i := Z.of_nat (batch_size * j) in
       let batch_end := Z.min (i + Z.of_nat batch_size) (len ids) in
       let batch_num := Z.of_nat j + 1 in
       logging
         (LogInfo (lit "  ✓ Batch " ++ str_of_Z batch_num ++ lit "/" ++
                   str_of_Z (Z.of_nat total_batches) ++ lit " indexé"))
         (collection_add name (slice es i batch_end) (slice ds i batch_end)
            (slice ms i batch_end) (slice ids i batch_end) w))
    (seq 0 total_batches) w.

Definition index_documents (ing : ingester) (fuel : nat)
    (docs : list document) (w : world) : option world :=
  let w0 :=
    logging
      (LogInfo (lit "🚀 Début de l'indexation de " ++ str_of_Z (len docs) ++
                lit " documents")) w in
  match chunk_documents ing fuel docs [] w0 with
  | None => None
  | Some (all_chunks, w1) =>
      let w2 :=
        logging
          (LogInfo (lit "📊 Total: " ++ str_of_Z (len all_chunks) ++
                    lit " chunks créés")) w1 in
      match all_chunks with
      | [] => Some (logging (LogWarning (lit "⚠️  Aucun chunk à indexer")) w2)
      | _ :: _ =>
          let texts := map c_text all_chunks in
          let metadatas := map c_metadata all_chunks in
          let w3 :=
            logging (LogInfo (lit "🔢 Génération des embeddings...")) w2 in
          let embeddings := encode_batch texts in
          let ids :=
            map (fun i => lit "chunk_" ++ str_of_Z now ++ lit "_" ++
                          str_of_Z (Z.of_nat i))
                (seq 0 (length texts)) in
          let w4 :=
            add_batches (collection_name ing) embeddings texts metadatas
              ids w3 in
          let final_count :=
            default 0%nat (collection_count (collection_name ing) w4) in
          Some (logging
                  (LogInfo (lit "✅ Indexation terminée: " ++
                            str_of_Z (Z.of_nat final_count) ++
                            lit " chunks dans ChromaDB")) w4)
      end
  end.

(** [main()]: one ingestion run over the [*.txt] files of the corpus
    directory, with the default collection name; the [print]s are left
    out. *)
Definition default_collection : list N := lit "tunisian_archaeology".

Definition main (model db_path : list N) (cs ov : Z) (fuel : nat)
    (files : list (list N * pyresult (list N))) (w : world)
    : option (pyresult world) :=
  match files with
  | [] => Some (Ok w)
  | _ :: _ =>
      match ingester_init model db_path cs ov default_collection w with
      | Raise e => Some (Raise e)
      | Ok (ing, w1) =>
          let '(docs, w2) := load_documents files w1 in
          match docs with
          | [] => Some (Ok w2)
          | _ :: _ => Ok <$> index_documents ing fuel docs w2
          end
      end
  end.
End Ingestion.

Arguments e_id {embedding} _.
Arguments e_embedding {embedding} _.
Arguments e_document {embedding} _.
Arguments e_metadata {embedding} _.
Arguments store {embedding} _.
Arguments log {embedding} _.
Arguments logging {embedding} r w.
Arguments delete_collection {embedding} name w.
Arguments create_collection {embedding} name w.
Arguments zip_entries {embedding} es ds ms ids.
Arguments collection_add {embedding} name es ds ms ids w.
Arguments collection_count {embedding} name w.
Arguments ingester_init {embedding} model db_path cs ov name w.
Arguments load_files {embedding} extract_metadata files documents0 w.
Arguments load_documents {embedding} extract_metadata files w.
Arguments chunk_documents {embedding} ing fuel docs all_chunks w.
Arguments add_batches {embedding} name es ds ms ids w.
Arguments index_documents {embedding} encode_batch now ing fuel docs w.
Arguments main {embedding} encode_batch extract_metadata now model db_path
  cs ov fuel files w.

End Ingest.

(* ===================================================================== *)
(** * rag.py: RAGSystem *)
(* ===================================================================== *)

Module Rag.
Import Py.

(** ** is_in_scope *)

(** The three results of [is_in_scope]: ["greeting"], [True], [False]. *)
Inductive scope :=
| Greeting
| InDomain
| OutOfDomain.

Definition greetings : list (list N) :=
  map lit
    ["hi"; "hello"; "salut"; "bonjour"; "bonsoir";
     "hey"; "coucou"; "yo"; "good morning"; "good evening"]%string.

Definition keywords : list (list N) :=
  map lit
    ["tunisie"; "tunisien"; "tunisienne";
     "site archéologique"; "sites archéologiques";
     "archéologie"; "patrimoine"; "ruines"; "antique";
     "romain"; "punique"; "numide"; "byzantin";
     "amphithéâtre"; "théâtre"; "forum"; "thermes"; "temple";
     "mosaïque"; "basilique"; "capitole";
     "carthage"; "dougga"; "el jem"; "el djem";
     "sbeitla"; "sbeïtla"; "kerkouane";
     "bulla regia"; "uthina"; "maktar"; "thuburbo";
     "chemtou"; "oudhna"]%string.

(** [re.search(r"\bkerk\w*", q)]: an occurrence of [kerk] at a word
    boundary, that is at the start or after a character outside [\w];
    [\w*] matches any continuation. [prev] is the character before [q]. *)
Fixpoint kerk_search (U : unicode) (prev : option N) (q : list N) : bool :=
  match q with
  | [] => false
  | c :: q' =>
      startswith q (lit "kerk") &&
        match prev with
        | None => true
        | Some p => negb (is_word U p)
        end
      || kerk_search U (Some c) q'
  end.

(** The test of the greeting branch, on the normalised question. *)
Definition is_greeting (q : list N) : bool :=
  existsb (fun g => bool_decide (q = g)) greetings ||
  existsb (fun g => startswith q (g ++ lit " ") || startswith q (g ++ lit ","))
    greetings.

Definition is_in_scope (U : unicode) (question : list N) : scope :=
  let q := strip (lower U question) in
  if is_greeting q then Greeting
  else if kerk_search U None q then InDomain
  else if existsb (fun k => contains k q) keywords then InDomain
  else OutOfDomain.

(** ** search *)

(** A retrieved document:
    [{"text", "metadata", "similarity", "distance"}]. *)
Record retrieved := {
  r_text : list N;
  r_metadata : gmap (list N) pyval;
  similarity : Q;
  distance : Q
}.

(** The reply of [collection.query]: [results.get(key)] for the three
    keys read by the code ([None]: key absent or value [None]). *)
Record reply := {
  distances : option (list (list Q));
  documents : option (list (list (list N)));
  metadatas : option (list (list (gmap (list N) pyval)))
}.

Definition bind {A B} (r : pyresult A) (k : A -> pyresult B) : pyresult B :=
  match r with
  | Ok a => k a
  | Raise e => Raise e
  end.

(** [results[key]] *)
Definition getitem {A} (key : string) (o : option A) : pyresult A :=
  match o with
  | Some a => Ok a
  | None => Raise (KeyError (lit key))
  end.

(** Truth value of [results.get(key)] for a list value. *)
Definition truthy {A} (o : option (list A)) : bool :=
  match o with
  | Some (_ :: _) => true
  | _ => false
  end.

(** [results["documents"][0][i]] *)
Definition text_at (results : reply) (i : nat) : pyresult (list N) :=
  bind (bind (getitem "documents" (documents results))
          (fun rows => index rows 0))
    (fun row => index row i).

(** [results["metadatas"][0][i] if results.get("metadatas") else {}] *)
Definition meta_at (results : reply) (i : nat)
    : pyresult (gmap (list N) pyval) :=
  if truthy (metadatas results)
  then bind (bind (getitem "metadatas" (metadatas results))
               (fun rows => index rows 0))
         (fun row => index row i)
  else Ok ∅.

(** The body of [for i, distance in enumerate(results["distances"][0])],
    from index [i] on, appending to [acc]: [similarity = 1 - (distance /
    2.0)], the test [similarity >= self.similarity_threshold] and the two
    [round(float(x), 3)]. *)
Fixpoint collect (F : float_ops) (similarity_threshold : Q)
    (results : reply) (i : nat) (ds : list Q) (acc : list retrieved)
    : pyresult (list retrieved) :=
  match ds with
  | [] => Ok acc
  | d :: ds' =>
      let sim := fsub F 1 (fdiv F d 2) in
      if Qle_bool similarity_threshold sim then
        bind (text_at results i)
          (fun t =>
             bind (meta_at results i)
               (fun m =>
                  collect F similarity_threshold results (S i) ds'
                    (acc ++ [{| r_text := t; r_metadata := m;
                                similarity := round_ndigits F sim 3;
                                distance := round_ndigits F d 3 |}])))
      else collect F similarity_threshold results (S i) ds' acc
  end.

(** [l.sort(key=key, reverse=True)]: [list.sort] is stable, also with
    [reverse=True]; the list it returns is the one an insertion sort
    computes that puts an element before the elements of the sorted rest
    whose key is not greater. *)
Fixpoint insert_desc {A} (key : A -> Q) (x : A) (l : list A) : list A :=
  match l with
  | [] => [x]
  | y :: l' =>
      if Qle_bool (key y) (key x) then x :: y :: l'
      else y :: insert_desc key x l'
  end.

Fixpoint sort_desc {A} (key : A -> Q) (l : list A) : list A :=
  match l with
  | [] => []
  | x :: l' => insert_desc key x (sort_desc key l')
  end.

(** ** The query cycle: calls to the outside are recorded in a trace *)

Inductive event :=
| CallSearch (query : list N)
| Encode (query : list N)
| IndexQuery (n_results : nat)
| CallGenerate (prompt : list N)
| OllamaList
| OllamaGenerate (prompt : list N).

(** A computation that may raise and appends to the trace. *)
Definition M (A : Type) : Type := list event -> pyresult A * list event.

Definition ret {A} (a : A) : M A := fun tr => (Ok a, tr).
Definition emit (e : event) : M unit := fun tr => (Ok tt, tr ++ [e]).
Definition lift {A} (r : pyresult A) : M A := fun tr => (r, tr).
Definition mbind {A B} (m : M A) (k : A -> M B) : M B :=
  fun tr =>
    match m tr with
    | (Ok a, tr') => k a tr'
    | (Raise e, tr') => (Raise e, tr')
    end.

Notation "'let*' x := m 'in' k" := (mbind m (fun x => k))
  (at level 10, x name, m at level 200, k at level 200).
Notation "'perform' m 'in' k" := (mbind m (fun _ => k))
  (at level 10, m at level 200, k at level 200).

(** The result of [query]: [{"answer", "sources", "has_sources",
    "question"}]. *)
Record query_result := {
  answer : list N;
  sources : list retrieved;
  has_sources : bool;
  question : list N
}.

Definition nl : list N := [10%N].

Definition greeting_message : list N :=
  lit "Bonjour ! 👋 Je suis votre assistant spécialisé sur les sites " ++
  lit "archéologiques de Tunisie. " ++ nl ++ nl ++
  lit "Je peux répondre à vos questions sur:" ++ nl ++
  lit "• Carthage, Dougga, El Jem, Sbeïtla, Kerkouane, Bulla Regia, etc." ++ nl ++
  lit "• L'histoire, l'architecture et les découvertes archéologiques" ++ nl ++
  lit "• Les périodes punique, romaine, byzantine..." ++ nl ++ nl ++
  lit "Posez-moi une question !".

Definition out_of_scope_message : list N :=
  lit "Désolé, je ne peux répondre qu'aux questions concernant " ++
  lit "les sites archéologiques de Tunisie." ++ nl ++ nl ++
  lit "Exemples de questions valides:" ++ nl ++
  lit "• Quelles sont les particularités du théâtre romain de Dougga ?" ++ nl ++
  lit "• Parle-moi de l'amphithéâtre d'El Jem" ++ nl ++
  lit "• Quel est l'histoire de Carthage ?".

Definition no_information_message : list N :=
  lit "Je ne dispose pas d'information fiable sur ce point dans ma base de connaissances." ++ nl ++ nl ++
  lit "Reformulez votre question ou posez une question sur un site spécifique " ++
  lit "(Carthage, Dougga, El Jem, Sbeïtla, Kerkouane, Bulla Regia, etc.).".

Definition ollama_unreachable_message : list N :=
  lit "⚠️ Erreur: Ollama n'est pas accessible. Démarrez-le avec 'ollama serve'.".

Definition generation_error_prefix : list N :=
  lit "⚠️ Erreur lors de la génération: ".

(** [meta.get(key) or dflt] *)
Definition get_or (meta : gmap (list N) pyval) (key : string)
    (dflt : string) : list N :=
  match meta !! lit key with
  | Some v => if val_truthy v then str_of_val v else lit dflt
  | None => lit dflt
  end.

(** [meta.get(key, dflt)] *)
Definition get_default (meta : gmap (list N) pyval) (key : string)
    (dflt : string) : list N :=
  match meta !! lit key with
  | Some v => str_of_val v
  | None => lit dflt
  end.

(** ["\n".join(parts)] *)
Fixpoint join_lines (parts : list (list N)) : list N :=
  match parts with
  | [] => []
  | [p] => p
  | p :: parts' => p ++ nl ++ join_lines parts'
  end.

(** [RAGSystem.__init__]: [self.collection] is the collection when
    [get_collection] and the [count()] that is logged both return, and
    [None] when either raises. *)
Definition init_collection {C : Type} (get_collection : pyresult C)
    (count : C -> pyresult nat) : option C :=
  match get_collection with
  | Ok c =>
      match count c with
      | Ok _ => Some c
      | Raise _ => None
      end
  | Raise _ => None
  end.

Section RAGSystem.
(** The operations on floats. *)
Variable F : float_ops.
(** The code-point tables beyond Latin-1. *)
Variable U : unicode.
(** [self.embedding_model.encode(query).tolist()] *)
Variable embedding : Type.
Variable encode : list N -> embedding.
(** [self.collection] as [__init__] left it ([init_collection]); a
    collection is its [query(query_embeddings=[e], n_results=n,
    include=[...])]. *)
Variable collection : option (embedding -> nat -> reply).
(** The constructor's parameters. *)
Variable top_k : Z.
Variable similarity_threshold : Q.
Variable llama_model : list N.
Variable temperature : Q.
Variable max_tokens : Z.
(** [ollama.list()] and [ollama.generate(model, prompt, options)]; the
    latter gives [response.get("response")]. *)
Variable ollama_list : pyresult unit.
Variable ollama_generate :
  list N -> list N -> Q -> Z -> pyresult (option (list N)).
(** [str(x)] of a float, used by the f-strings of [build_prompt]. *)
Variable str_of_float : Q -> list N.

(** The part of [search] after [collection.query]. *)
Definition rank (results : reply) : pyresult (list retrieved) :=
  bind
    (match distances results with
     | Some (d0 :: _) =>
         match d0 with
         | [] => Ok []
         | _ :: _ => collect F similarity_threshold results 0 d0 []
         end
     | _ => Ok []
     end)
    (fun documents0 =>
       Ok (slice_to (sort_desc similarity documents0) top_k)).

Definition search (query : list N) : M (list retrieved) :=
  perform emit (CallSearch query) in
  match collection with
  | None => ret []
  | Some coll =>
      perform emit (Encode query) in
      perform emit (IndexQuery 10) in
      lift (rank (coll (encode query) 10%nat))
  end.

(** The lines of one context block, [i] being the 0-based position. *)
Definition context_block (i : nat) (doc : retrieved) : list (list N) :=
  let meta := r_metadata doc in
  [lit "[SOURCE " ++ str_of_Z (Z.of_nat i + 1) ++ lit "]";
   lit "Site: " ++ get_or meta "site" "Site inconnu";
   lit "Période: " ++ get_or meta "period" "Période inconnue";
   lit "Source: " ++ get_or meta "source" "Source inconnue";
   lit "Document: " ++ get_default meta "filename" "Document";
   lit "Pertinence: " ++ str_of_float (similarity doc);
   lit "---";
   r_text doc;
   repeat 61%N 50].

Definition build_prompt (query : list N) (context_docs : list retrieved)
    : list N :=
  let context :=
    join_lines (concat (imap context_block context_docs)) in
  lit "Tu es un expert en archéologie tunisienne. Ta mission est de fournir des réponses factuelles, précises et bien sourcées." ++ nl ++ nl ++
  lit "DOCUMENTS DE RÉFÉRENCE:" ++ nl ++
  context ++ nl ++ nl ++
  lit "QUESTION DE L'UTILISATEUR: " ++ query ++ nl ++ nl ++
  lit "INSTRUCTIONS STRICTES:" ++ nl ++
  lit "1. Réponds en français, de manière claire et structurée." ++ nl ++
  lit "2. Utilise UNIQUEMENT les informations présentes dans les documents de référence." ++ nl ++
  lit "3. N'invente rien. Si une information n'est pas dans les documents, dis-le explicitement." ++ nl ++
  lit "4. À la fin de ta réponse, liste les sources utilisées sous ce format exact:" ++ nl ++ nl ++
  lit "Sources:" ++ nl ++
  lit "- [Titre du document] (Site: [site], Période: [période], Source: [source])" ++ nl ++ nl ++
  lit "RÉPONSE:".

(** Both [try] blocks turn an exception into a message. *)
Definition generate_response (prompt : list N) : M (list N) :=
  perform emit (CallGenerate prompt) in
  perform emit OllamaList in
  match ollama_list with
  | Raise _ => ret ollama_unreachable_message
  | Ok _ =>
      perform emit (OllamaGenerate prompt) in
      match ollama_generate llama_model prompt temperature max_tokens with
      | Ok response => ret (strip (default [] response))
      | Raise e => ret (generation_error_prefix ++ str_of_exn e)
      end
  end.

Definition query (question0 : list N) : M query_result :=
  match is_in_scope U question0 with
  | Greeting =>
      ret {| answer := greeting_message; sources := [];
             has_sources := false; question := question0 |}
  | OutOfDomain =>
      ret {| answer := out_of_scope_message; sources := [];
             has_sources := false; question := question0 |}
  | InDomain =>
      let* docs := search question0 in
      match docs with
      | [] =>
          ret {| answer := no_information_message; sources := [];
                 has_sources := false; question := question0 |}
      | _ :: _ =>
          let prompt := build_prompt question0 docs in
          let* answer0 := generate_response prompt in
          ret {| answer := answer0; sources := docs;
                 has_sources := true; question := question0 |}
      end
  end.
End RAGSystem.

End Rag.

Import Py Ingest Rag.

(* ===================================================================== *)
(** * Vocabulary of the statements *)
(* ===================================================================== *)

(** [sub] occurs in [s] at index [q]. *)
Definition occurs (s sub : list N) (q : Z) : Prop :=
  startswith (drop (Z.to_nat q) s) sub = true.

(** A chunk keeps at least 100 characters and no surrounding white
    space. *)
Definition min_size_ok (c : chunk) : Prop :=
  100 <= len (c_text c) /\ strip (c_text c) = c_text c.

(** The record at position [i] of the output. *)
Definition record_ok (text : list N) (i : nat) (c : chunk) : Prop :=
  exists s e,
    chunk_id_of c = Some (Z.of_nat i) /\
    start_char c = Some s /\ end_char c = Some e /\
    0 <= s < e /\ e <= len text /\
    c_text c = strip (slice text s e) /\
    len (c_text c) <= e - s.

Definition chunk_records_wf (text : list N) (l : list chunk) : Prop :=
  (forall i c, l !! i = Some c -> record_ok text i c) /\
  (forall i j c d s t,
      l !! i = Some c -> l !! j = Some d -> (i < j)%nat ->
      start_char c = Some s -> start_char d = Some t -> s < t).

(** Position [i] of the text lies in the span of a chunk. *)
Definition in_chunk_span (l : list chunk) (i : Z) : Prop :=
  exists c s e,
    In c l /\ start_char c = Some s /\ end_char c = Some e /\ s <= i < e.

(** Position [i] lies in a window whose trimmed text is too short to be
    kept. *)
Definition in_discarded_window (text : list N) (ws : list (Z * Z)) (i : Z)
    : Prop :=
  exists s e,
    In (s, e) ws /\ s <= i < e /\ len (strip (slice text s e)) < 100.

(** The invariant of the loop in the regular regime. *)
Definition regular_inv (text : list N) (st : loop_state) : Prop :=
  0 <= start st /\
  chunk_id st = len (chunks st) /\
  chunk_records_wf text (chunks st) /\
  (forall c s, In c (chunks st) -> start_char c = Some s -> s < start st).

(** A window is kept when its trimmed text has at least 100 characters. *)
Definition kept (text : list N) (w : Z * Z) : bool :=
  100 <=? len (strip (slice text (fst w) (snd w))).

(** What a chunk records of its window, and the same read off a window. *)
Definition chunk_span (c : chunk) : option Z * option Z * list N :=
  (start_char c, end_char c, c_text c).

Definition window_span (text : list N) (w : Z * Z)
    : option Z * option Z * list N :=
  (Some (fst w), Some (snd w), strip (slice text (fst w) (snd w))).

(** The claim of full coverage: every position of the text lies in the
    span of a chunk. *)
Definition spans_cover_text (text : list N) (l : list chunk) : Prop :=
  forall i, 0 <= i < len text -> in_chunk_span l i.

(** [a] may stand before [b] in a list sorted by decreasing key. *)
Definition desc {A} (key : A -> Q) (a b : A) : Prop := (key b <= key a)%Q.

(** The elements of [l] whose key equals [k], in the order of [l]. *)
Definition with_key {A} (key : A -> Q) (k : Q) (l : list A) : list A :=
  List.filter (fun x => Qeq_bool (key x) k) l.

(** The first row of a field of the reply: the code reads
    [results[key][0]]. *)
Definition first_row {A} (o : option (list (list A))) : list A :=
  match o with
  | Some (r :: _) => r
  | _ => []
  end.

(** The row of metadata, [{}] for every entry when the field is absent
    or empty. *)
Definition meta_row (results : reply) : list (gmap (list N) pyval) :=
  if truthy (metadatas results) then first_row (metadatas results)
  else repeat ∅ (length (first_row (distances results))).

(** The reply holds parallel sequences. *)
Definition parallel (results : reply) : Prop :=
  length (first_row (documents results)) =
    length (first_row (distances results)) /\
  length (meta_row results) = length (first_row (distances results)).

(** An entry reported by the index: distance, text, metadata. *)
Fixpoint zip3 {A B C} (xs : list A) (ys : list B) (zs : list C)
    : list (A * B * C) :=
  match xs, ys, zs with
  | x :: xs', y :: ys', z :: zs' => (x, y, z) :: zip3 xs' ys' zs'
  | _, _, _ => []
  end.

Definition entries (results : reply)
    : list (Q * list N * gmap (list N) pyval) :=
  zip3 (first_row (distances results)) (first_row (documents results))
    (meta_row results).

(** The similarity of the specification: [1 - d/2], in exact
    arithmetic. *)
Definition exact_similarity (e : Q * list N * gmap (list N) pyval) : Q :=
  (1 - fst (fst e) / 2)%Q.

(** The similarity that the code computes: [1 - (distance / 2.0)] in
    floating point. *)
Definition float_similarity (F : float_ops)
    (e : Q * list N * gmap (list N) pyval) : Q :=
  fsub F 1 (fdiv F (fst (fst e)) 2).

Definition passes (F : float_ops) (threshold : Q)
    (e : Q * list N * gmap (list N) pyval) : bool :=
  Qle_bool threshold (float_similarity F e).

(** The entries kept by the threshold, in the order of the index. *)
Definition kept_entries (F : float_ops) (threshold : Q) (results : reply)
    : list (Q * list N * gmap (list N) pyval) :=
  List.filter (passes F threshold) (entries results).

(** The record built for a kept entry: similarity and distance are
    stored rounded to three decimals by [round]. *)
Definition to_retrieved (F : float_ops)
    (e : Q * list N * gmap (list N) pyval) : retrieved :=
  {| r_text := snd (fst e); r_metadata := snd e;
     similarity := round_ndigits F (float_similarity F e) 3;
     distance := round_ndigits F (fst (fst e)) 3 |}.

(** The retriever as the specification words it: keep the entries with
    [1 - d/2 >= threshold], sort them by that similarity, descending and
    stable, truncate to [top_k]. *)
Definition spec_kept (threshold : Q) (results : reply)
    : list (Q * list N * gmap (list N) pyval) :=
  List.filter (fun e => Qle_bool threshold (exact_similarity e))
    (entries results).

Definition spec_search (top_k : Z) (threshold : Q) (results : reply)
    : list (Q * list N * gmap (list N) pyval) :=
  take (Z.to_nat top_k)
    (sort_desc exact_similarity (spec_kept threshold results)).

(** The normalised question equals a greeting, or starts with a greeting
    followed by a space or a comma. *)
Definition greeting_form (q : list N) : Prop :=
  In q greetings \/
  exists g, In g greetings /\
            (startswith q (g ++ lit " ") = true \/
             startswith q (g ++ lit ",") = true).

Definition is_retrieval_event (e : event) : Prop :=
  match e with
  | CallSearch _ | Encode _ | IndexQuery _ => True
  | _ => False
  end.

Definition is_generation_event (e : event) : Prop :=
  match e with
  | CallGenerate _ | OllamaList | OllamaGenerate _ => True
  | _ => False
  end.

(** The reply of the collection, when there is one, holds parallel
    sequences. *)
Definition index_reply_parallel {embedding : Type}
    (encode : list N -> embedding)
    (collection : option (embedding -> nat -> reply)) (q : list N) : Prop :=
  match collection with
  | None => True
  | Some coll => parallel (coll (encode q) 10%nat)
  end.

(** The warning of [index_documents]. *)
Definition no_chunk_warning : log_record :=
  LogWarning (lit "⚠️  Aucun chunk à indexer").

(** The chunk set of a list of documents: the chunks of every document,
    in order. *)
Fixpoint all_chunks (ing : ingester) (fuel : nat) (docs : list document)
    : option (list chunk) :=
  match docs with
  | [] => Some []
  | d :: docs' =>
      match chunk_text (chunk_size ing) (chunk_overlap ing) (content d)
              (doc_metadata d) fuel with
      | None => None
      | Some chunks0 =>
          match all_chunks ing fuel docs' with
          | None => None
          | Some rest => Some (chunks0 ++ rest)
          end
      end
  end.

(** One iteration when the loop condition holds, nothing otherwise. *)
Definition advance (cs ov : Z) (text : list N) (md : gmap (list N) pyval)
    (st : loop_state) : loop_state :=
  if start st <? len text then loop_body cs ov text md st else st.

(** None of the delimiters [ps] occurs inside [text[a:b]]. *)
Definition no_delimiter (text : list N) (ps : list (list N)) (a b : Z)
    : Prop :=
  forall p q, In p ps -> a <= q -> q + len p <= b -> ~ occurs text p q.

(* ===================================================================== *)
(** * Sample inputs *)
(* ===================================================================== *)

(** A text of 502 characters with one sentence end, chunked with a size
    of 120 and an overlap of 20. *)
Definition demo_text : list N :=
  repeat 97%N 300 ++ lit ". " ++ repeat 98%N 200.

Definition demo_chunks : list chunk :=
  Eval vm_compute in default [] (chunk_text 120 20 demo_text ∅ 502).

(** A text whose first sentence is short: the first window is dropped. *)
Definition short_intro_text : list N := lit "Hi. " ++ repeat 97%N 200.

(** Two entries whose similarities differ beyond the third decimal.
    A decimal written [b64 q] is the float of that literal. *)
Definition close_pair : reply :=
  {| distances := Some [[b64 (39998 # 100000); b64 (39992 # 100000)]];
     documents := Some [[lit "A"; lit "B"]];
     metadatas := None |}.

(** Two entries whose exact similarities, 0.998 and 0.9985, both round
    to 0.998, ties to even; in binary64 the second is just above 0.9985
    and is stored as 0.999. *)
Definition near_pair : reply :=
  {| distances := Some [[b64 (4 # 1000); b64 (3 # 1000)]];
     documents := Some [[lit "B"; lit "A"]];
     metadatas := None |}.

(** One entry whose exact similarity is just below the float 0.8 and
    whose computed similarity is that float. *)
Definition edge_entry : reply :=
  {| distances := Some [[b64 (39999999999999997 # 100000000000000000)]];
     documents := Some [[lit "A"]];
     metadatas := None |}.

(** A reply of four entries: two tie once rounded, one is below 0.35. *)
Definition demo_reply : reply :=
  {| distances :=
       Some [[b64 1; b64 (39998 # 100000); b64 (39992 # 100000);
              b64 (3 # 2)]];
     documents := Some [[lit "Dougga"; lit "Carthage"; lit "Byrsa"; lit "Couscous"]];
     metadatas :=
       Some [[ {[ lit "site" := VStr (lit "Dougga") ]};
               {[ lit "site" := VStr (lit "Carthage") ]};
               {[ lit "site" := VStr (lit "Carthage") ]};
               ∅ ]] |}.

Definition demo_collection : unit -> nat -> reply := fun _ _ => demo_reply.
Definition demo_encode : list N -> unit := fun _ => tt.

Definition demo_question : list N := lit "Parle-moi de Carthage".

Definition demo_results : list retrieved :=
  Eval vm_compute in
    match rank binary64 5 (35 # 100) demo_reply with
    | Ok l => l
    | Raise _ => []
    end.

(** Code-point tables that are the identity beyond Latin-1. *)
Definition latin1_only : unicode :=
  {| u_lower := fun s => s; u_isalnum := fun _ => false |}.

Definition demo_generate
    : list N -> list N -> Q -> Z -> pyresult (option (list N)) :=
  fun _ _ _ _ => Ok (Some (lit " Carthage fut fondée par les Phéniciens. ")).

Definition demo_float : Q -> list N := fun _ => lit "0.8".

(** An index that holds one entry from an earlier run, and a corpus of
    one file too short to give a chunk. *)
Definition indexed_world : world unit :=
  {| store :=
       {[ default_collection :=
            [{| e_id := lit "chunk_1700000000_0"; e_embedding := tt;
                e_document := lit "Carthage";
                e_metadata := ∅ |}] ]};
     log := [] |}.

Definition short_corpus : list (list N * pyresult (list N)) :=
  [(lit "carthage.txt", Ok (lit "Carthage est un site punique."))].

Definition demo_model : list N := lit "sentence-transformers/all-MiniLM-L6-v2".
Definition demo_db_path : list N := lit "chroma_db".

Definition no_embeddings : list (list N) -> list unit := fun _ => [].
Definition no_metadata : list N -> list N -> gmap (list N) pyval :=
  fun _ _ => ∅.

(* ===================================================================== *)
(** * Facts on the Python built-ins *)
(* ===================================================================== *)

Section PyFacts.

Lemma len_nonneg {A} (l : list A) : 0 <= len l.
Proof. unfold len. lia. Qed.

Lemma len_app {A} (l1 l2 : list A) : len (l1 ++ l2) = len l1 + len l2.
Proof. unfold len. rewrite length_app. lia. Qed.

Lemma len_nil_iff {A} (l : list A) : len l = 0 <-> l = [].
Proof.
  unfold len. split; intros H.
  - destruct l; [reflexivity | simpl in H; lia].
  - subst. reflexivity.
Qed.

Lemma adjust_range n i : 0 <= n -> 0 <= adjust n i <= n.
Proof.
  intros Hn. unfold adjust. destruct (i <? 0) eqn:E.
  - apply Z.ltb_lt in E. lia.
  - apply Z.ltb_ge in E. lia.
Qed.

Lemma adjust_id n i : 0 <= i <= n -> adjust n i = i.
Proof.
  intros H. unfold adjust. destruct (i <? 0) eqn:E.
  - apply Z.ltb_lt in E. lia.
  - lia.
Qed.

Lemma adjust_lt n i : 0 < n -> i < n -> adjust n i < n.
Proof.
  intros Hn Hi. unfold adjust. destruct (i <? 0) eqn:E.
  - apply Z.ltb_lt in E. lia.
  - lia.
Qed.

Lemma adjust_start_nonneg n i : 0 <= adjust_start n i.
Proof.
  unfold adjust_start. destruct (i <? 0) eqn:E.
  - lia.
  - apply Z.ltb_ge in E. lia.
Qed.

Lemma adjust_start_id n i : 0 <= i -> adjust_start n i = i.
Proof.
  intros H. unfold adjust_start. destruct (i <? 0) eqn:E.
  - apply Z.ltb_lt in E. lia.
  - reflexivity.
Qed.

(** [rfind_down] returns [-1] or the highest occurrence among its
    candidates. *)
Lemma rfind_down_found s sub a cnt :
  0 <= a ->
  rfind_down s sub a cnt <> -1 ->
  a <= rfind_down s sub a cnt < a + Z.of_nat cnt /\
  occurs s sub (rfind_down s sub a cnt).
Proof.
  intros Ha. induction cnt as [|c IH]; simpl; intros Hne.
  - congruence.
  - destruct (startswith (drop (Z.to_nat (a + Z.of_nat c)) s) sub) eqn:E.
    + split; [lia | exact E].
    + destruct (IH Hne) as [Hr Ho]. split; [lia | exact Ho].
Qed.

Lemma rfind_down_highest s sub a cnt q :
  0 <= a ->
  a <= q < a + Z.of_nat cnt ->
  occurs s sub q ->
  q <= rfind_down s sub a cnt.
Proof.
  intros Ha. induction cnt as [|c IH]; simpl; intros Hq Ho.
  - lia.
  - destruct (startswith (drop (Z.to_nat (a + Z.of_nat c)) s) sub) eqn:E.
    + lia.
    + assert (q <> a + Z.of_nat c) as Hne.
      { intros ->. unfold occurs in Ho. congruence. }
      apply IH; [lia | exact Ho].
Qed.

(** [rfind]: a result other than [-1] is an occurrence inside the
    adjusted range. *)
Lemma rfind_found s sub i j :
  rfind s sub i j <> -1 ->
  adjust_start (len s) i <= rfind s sub i j /\
  rfind s sub i j + len sub <= adjust (len s) j /\
  occurs s sub (rfind s sub i j).
Proof.
  unfold rfind. intros Hne.
  pose proof (adjust_start_nonneg (len s) i) as Ha.
  destruct (rfind_down_found _ _ _ _ Ha Hne) as [Hr Ho].
  split; [lia | split; [lia | exact Ho]].
Qed.

(** [rfind]: every occurrence inside the adjusted range is at or below
    the result. *)
Lemma rfind_highest s sub i j q :
  adjust_start (len s) i <= q ->
  q + len sub <= adjust (len s) j ->
  occurs s sub q ->
  q <= rfind s sub i j.
Proof.
  unfold rfind. intros Hq1 Hq2 Ho.
  pose proof (adjust_start_nonneg (len s) i) as Ha.
  apply rfind_down_highest; [exact Ha | lia | exact Ho].
Qed.

Lemma slice_inside {A} (l : list A) i j :
  0 <= i <= j -> j <= len l ->
  slice l i j = take (Z.to_nat (j - i)) (drop (Z.to_nat i) l).
Proof.
  intros Hi Hj. unfold slice.
  rewrite !adjust_id by lia. reflexivity.
Qed.

Lemma len_slice_to {A} (l : list A) k :
  len (slice_to l k) = if k <? 0 then Z.max 0 (len l + k) else Z.min k (len l).
Proof.
  unfold slice_to, slice.
  pose proof (len_nonneg l) as Hn.
  rewrite (adjust_id (len l) 0) by lia.
  change (Z.to_nat 0) with 0%nat. rewrite drop_0.
  unfold len at 1. rewrite length_take.
  unfold adjust. destruct (k <? 0) eqn:E.
  - apply Z.ltb_lt in E. unfold len in *. lia.
  - apply Z.ltb_ge in E. unfold len in *. lia.
Qed.

Lemma slice_to_take {A} (l : list A) k :
  0 <= k -> slice_to l k = take (Z.to_nat k) l.
Proof.
  intros Hk. unfold slice_to, slice.
  pose proof (len_nonneg l) as Hn.
  rewrite (adjust_id (len l) 0) by lia.
  change (Z.to_nat 0) with 0%nat. rewrite drop_0.
  unfold adjust. destruct (k <? 0) eqn:E.
  - apply Z.ltb_lt in E. lia.
  - rewrite Z.sub_0_r.
    destruct (Z.le_gt_cases k (len l)).
    + rewrite Z.min_l by lia. reflexivity.
    + rewrite Z.min_r by lia. unfold len in *.
      rewrite Nat2Z.id. rewrite !take_ge; [reflexivity | lia | lia].
Qed.

Lemma lstrip_idem s : lstrip (lstrip s) = lstrip s.
Proof.
  induction s as [|c s IH]; simpl; [reflexivity |].
  destruct (isspace c) eqn:E; [exact IH |].
  simpl. rewrite E. reflexivity.
Qed.

Lemma lstrip_suffix s : exists p, s = p ++ lstrip s.
Proof.
  induction s as [|c s [p IH]]; simpl.
  - exists []. reflexivity.
  - destruct (isspace c).
    + exists (c :: p). simpl. f_equal. exact IH.
    + exists []. reflexivity.
Qed.

(** A string with no leading white space keeps that when a suffix is
    removed from it. *)
Lemma lstrip_fixed_prefix u v : lstrip (u ++ v) = u ++ v -> lstrip u = u.
Proof.
  destruct u as [|c u]; simpl; [reflexivity |].
  destruct (isspace c) eqn:E; [| reflexivity].
  intros H. exfalso.
  destruct (lstrip_suffix (u ++ v)) as [p Hp].
  apply (f_equal (@length N)) in H. apply (f_equal (@length N)) in Hp.
  simpl in H. rewrite !length_app in *. lia.
Qed.

(** [strip] is idempotent: a chunk text carries no surrounding white
    space. *)
Lemma strip_idem s : strip (strip s) = strip s.
Proof.
  unfold strip, rstrip.
  set (t := lstrip s).
  assert (lstrip (rev (lstrip (rev t))) = rev (lstrip (rev t))) as H1.
  { destruct (lstrip_suffix (rev t)) as [p Hp].
    apply (lstrip_fixed_prefix _ (rev p)).
    assert (rev (lstrip (rev t)) ++ rev p = t) as Ht.
    { rewrite <- rev_app_distr, <- Hp. apply rev_involutive. }
    rewrite Ht. apply lstrip_idem. }
  rewrite H1, rev_involutive, lstrip_idem. reflexivity.
Qed.

Lemma lstrip_length s : (length (lstrip s) <= length s)%nat.
Proof.
  destruct (lstrip_suffix s) as [p Hp].
  apply (f_equal (@length N)) in Hp. rewrite length_app in Hp. lia.
Qed.

Lemma len_strip_le s : len (strip s) <= len s.
Proof.
  unfold strip, rstrip, len. rewrite length_rev.
  pose proof (lstrip_length (rev (lstrip s))) as H1.
  rewrite length_rev in H1.
  pose proof (lstrip_length s) as H2. lia.
Qed.

Lemma len_strip_slice (s : list N) i j :
  0 <= i <= j -> j <= len s -> len (strip (slice s i j)) <= j - i.
Proof.
  intros Hi Hj. rewrite slice_inside by assumption.
  pose proof (len_strip_le (take (Z.to_nat (j - i)) (drop (Z.to_nat i) s)))
    as H.
  unfold len in *. rewrite length_take, length_drop in H. lia.
Qed.

End PyFacts.

(* ===================================================================== *)
(** * chunk_text: windows, progress and termination *)
(* ===================================================================== *)

Section ChunkFacts.
Variables (cs ov : Z) (text : list N) (md : gmap (list N) pyval).

Lemma puncts_nonempty : Forall (fun p : list N => 1 <= len p) puncts.
Proof.
  unfold puncts. repeat constructor; vm_compute; discriminate.
Qed.

(** The cut after a delimiter lies strictly after the (adjusted) start
    and at or before the (adjusted) fixed-size cut. *)
Lemma natural_cut_range s e0 ps :
  Forall (fun p : list N => 1 <= len p) ps ->
  natural_cut text s e0 ps = e0 \/
  adjust_start (len text) s < natural_cut text s e0 ps <= adjust (len text) e0.
Proof.
  induction 1 as [|p ps Hp _ IH]; simpl; [left; reflexivity |].
  destruct (rfind text p s e0 =? -1) eqn:E; [exact IH |].
  apply Z.eqb_neq in E. right.
  destruct (rfind_found _ _ _ _ E) as (H1 & H2 & _). lia.
Qed.

(** With a positive size, a window that starts inside the text is not
    empty and ends inside the text. *)
Lemma window_end_range s :
  0 < cs -> 0 <= s < len text -> s < window_end cs text s <= len text.
Proof.
  intros Hcs Hs. unfold window_end.
  set (e0 := Z.min (s + cs) (len text)).
  assert (s < e0 <= len text) as He0 by (unfold e0; lia).
  destruct (e0 <? len text) eqn:E; [| lia].
  destruct (natural_cut_range s e0 puncts puncts_nonempty) as [-> | H];
    [lia |].
  rewrite adjust_start_id in H by lia.
  rewrite adjust_id in H by lia. lia.
Qed.

(** With a size that is not positive, every window ends before the end
    of the text. *)
Lemma window_end_nonpositive s :
  cs <= 0 -> s < len text -> 0 < len text -> window_end cs text s < len text.
Proof.
  intros Hcs Hs Hn. unfold window_end.
  set (e0 := Z.min (s + cs) (len text)).
  assert (e0 < len text) as He0 by (unfold e0; lia).
  apply Z.ltb_lt in He0 as E. rewrite E.
  destruct (natural_cut_range s e0 puncts puncts_nonempty) as [-> | H];
    [lia |].
  pose proof (adjust_lt (len text) e0 Hn He0). lia.
Qed.

(** The new cursor never passes the end of the window, nor the
    overlap-based advance. *)
Lemma body_start_le_end st :
  start (loop_body cs ov text md st) <= window_end cs text (start st).
Proof.
  unfold loop_body. simpl.
  destruct (start st + (cs - ov) >=? window_end cs text (start st)) eqn:E.
  - lia.
  - rewrite Z.geb_leb in E. apply Z.leb_gt in E. lia.
Qed.

Lemma body_start_le_advance st :
  start (loop_body cs ov text md st) <= start st + (cs - ov).
Proof.
  unfold loop_body. simpl.
  destruct (start st + (cs - ov) >=? window_end cs text (start st)) eqn:E.
  - rewrite Z.geb_leb in E. apply Z.leb_le in E. lia.
  - lia.
Qed.

Lemma body_start_min st :
  start (loop_body cs ov text md st) =
  Z.min (start st + (cs - ov)) (window_end cs text (start st)).
Proof.
  unfold loop_body. simpl.
  destruct (start st + (cs - ov) >=? window_end cs text (start st)) eqn:E.
  - rewrite Z.geb_leb in E. apply Z.leb_le in E. lia.
  - rewrite Z.geb_leb in E. apply Z.leb_gt in E. lia.
Qed.

(** In the regular regime the cursor moves forward at every iteration
    and stays inside the text. *)
Lemma body_progress st :
  0 < cs -> ov < cs -> 0 <= start st < len text ->
  start st < start (loop_body cs ov text md st) <= len text.
Proof.
  intros Hcs Hov Hs. rewrite body_start_min.
  pose proof (window_end_range (start st) Hcs Hs). lia.
Qed.

(** A loop that stops returns the state it stopped in. *)
Lemma while_loop_invariant (P : loop_state -> Prop) :
  (forall st, start st < len text -> P st -> P (loop_body cs ov text md st)) ->
  forall fuel st st',
    P st -> while_loop cs ov text md fuel st = Some st' ->
    P st' /\ len text <= start st'.
Proof.
  intros Hstep. induction fuel as [|fuel IH]; intros st st' HP; simpl.
  - destruct (start st <? len text) eqn:E; [discriminate |].
    intros [= <-]. apply Z.ltb_ge in E. auto.
  - destruct (start st <? len text) eqn:E.
    + apply Z.ltb_lt in E. apply IH. auto.
    + intros [= <-]. apply Z.ltb_ge in E. auto.
Qed.

(** More fuel does not change the result. *)
Lemma while_loop_more_fuel fuel fuel' st st' :
  (fuel <= fuel')%nat ->
  while_loop cs ov text md fuel st = Some st' ->
  while_loop cs ov text md fuel' st = Some st'.
Proof.
  revert fuel' st. induction fuel as [|fuel IH]; intros fuel' st Hle; simpl.
  - destruct (start st <? len text) eqn:E; [discriminate |].
    intros [= <-]. destruct fuel'; simpl; rewrite E; reflexivity.
  - destruct (start st <? len text) eqn:E.
    + destruct fuel' as [|fuel']; [lia |]. simpl. rewrite E.
      apply IH. lia.
    + intros [= <-]. destruct fuel'; simpl; rewrite E; reflexivity.
Qed.

(** Regular regime: the loop stops within [len text - start] steps. *)
Lemma while_loop_terminates fuel st :
  0 < cs -> ov < cs -> 0 <= start st ->
  len text - start st <= Z.of_nat fuel ->
  exists st', while_loop cs ov text md fuel st = Some st'.
Proof.
  intros Hcs Hov. revert st.
  induction fuel as [|fuel IH]; intros st Hs Hf; simpl.
  - destruct (start st <? len text) eqn:E; [| eauto].
    apply Z.ltb_lt in E. lia.
  - destruct (start st <? len text) eqn:E; [| eauto].
    apply Z.ltb_lt in E.
    pose proof (body_progress st Hcs Hov (conj Hs E)).
    apply IH; lia.
Qed.

(** Regular regime: [chunk_text] returns with a fuel of [len(text)]. *)
Lemma chunk_text_regular_returns :
  0 < cs -> ov < cs ->
  exists chunks0, chunk_text cs ov text md (length text) = Some chunks0.
Proof.
  intros Hcs Hov. unfold chunk_text.
  destruct (while_loop_terminates (length text) init_state Hcs Hov)
    as [st' ->]; [cbn; lia | cbn; unfold len; lia |].
  eauto.
Qed.

(** A cursor that can never reach the end of the text: the loop runs
    out of any fuel. *)
Lemma while_loop_diverges fuel st :
  (forall st, start st < len text ->
              start (loop_body cs ov text md st) < len text) ->
  start st < len text ->
  while_loop cs ov text md fuel st = None.
Proof.
  intros Hstep. revert st.
  induction fuel as [|fuel IH]; intros st Hs; simpl;
    apply Z.ltb_lt in Hs as E; rewrite E; [reflexivity |].
  apply IH. apply Hstep. exact Hs.
Qed.

(** Outside the regular regime the cursor never reaches the end of a
    non-empty text. *)
Lemma irregular_cursor_trapped st :
  cs <= 0 \/ cs <= ov -> 0 < len text -> start st < len text ->
  start (loop_body cs ov text md st) < len text.
Proof.
  intros Hreg Hn Hs.
  destruct (Z.le_gt_cases cs 0) as [Hcs | Hcs].
  - pose proof (window_end_nonpositive (start st) Hcs Hs Hn).
    pose proof (body_start_le_end st). lia.
  - pose proof (body_start_le_advance st). lia.
Qed.

Lemma chunk_text_diverges fuel :
  cs <= 0 \/ cs <= ov -> text <> [] ->
  chunk_text cs ov text md fuel = None.
Proof.
  intros Hreg Hne. unfold chunk_text.
  assert (0 < len text) as Hn.
  { pose proof (len_nonneg text). pose proof (len_nil_iff text).
    destruct (Z.eq_dec (len text) 0); [tauto | lia]. }
  rewrite while_loop_diverges; [reflexivity | | exact Hn].
  intros st. apply irregular_cursor_trapped; assumption.
Qed.

(** A run of [chunk_text] that returns is in the regular regime, or on
    the empty text. *)
Lemma chunk_text_returns_regular fuel chunks0 :
  chunk_text cs ov text md fuel = Some chunks0 ->
  (0 < cs /\ ov < cs) \/ text = [].
Proof.
  intros H.
  destruct (Z.le_gt_cases cs 0) as [Hcs | Hcs];
    [| destruct (Z.le_gt_cases cs ov) as [Hov | Hov]; [| left; lia]].
  all: destruct text as [|c t] eqn:Et; [right; reflexivity |];
    rewrite <- Et in *;
    rewrite chunk_text_diverges in H; [discriminate | lia | congruence].
Qed.

End ChunkFacts.

(* ===================================================================== *)
(** * chunk_text: the records it appends *)
(* ===================================================================== *)

Section ChunkRecords.
Variables (cs ov : Z) (text : list N) (md : gmap (list N) pyval).

Lemma chunk_meta_fields t id s e :
  let c := {| c_text := t; c_metadata := chunk_meta md id s e |} in
  chunk_id_of c = Some id /\ start_char c = Some s /\ end_char c = Some e.
Proof.
  assert (lit "end_char" <> lit "start_char") as H1
    by (intros H; vm_compute in H; discriminate).
  assert (lit "end_char" <> lit "chunk_id") as H2
    by (intros H; vm_compute in H; discriminate).
  assert (lit "start_char" <> lit "chunk_id") as H3
    by (intros H; vm_compute in H; discriminate).
  unfold chunk_id_of, start_char, end_char, meta_int, chunk_meta.
  cbn [c_metadata]. repeat split.
  - rewrite lookup_insert_ne by exact H2.
    rewrite lookup_insert_ne by exact H3.
    rewrite lookup_insert_eq. reflexivity.
  - rewrite lookup_insert_ne by exact H1.
    rewrite lookup_insert_eq. reflexivity.
  - rewrite lookup_insert_eq. reflexivity.
Qed.

(** What one iteration does to the list of chunks: the window is
    appended when its trimmed text has at least 100 characters and
    dropped otherwise. *)
Lemma body_chunks st :
  let e := window_end cs text (start st) in
  let t := strip (slice text (start st) e) in
  (100 <= len t /\
   chunks (loop_body cs ov text md st) =
     chunks st ++ [{| c_text := t;
                      c_metadata := chunk_meta md (chunk_id st) (start st) e |}] /\
   chunk_id (loop_body cs ov text md st) = chunk_id st + 1)
  \/
  (len t < 100 /\
   chunks (loop_body cs ov text md st) = chunks st /\
   chunk_id (loop_body cs ov text md st) = chunk_id st).
Proof.
  intros e t. unfold loop_body. cbn [chunks chunk_id].
  fold e. fold t.
  destruct (100 <=? len t) eqn:E.
  - left. apply Z.leb_le in E. auto.
  - right. apply Z.leb_gt in E. auto.
Qed.

Lemma body_keeps_min_size st :
  Forall min_size_ok (chunks st) ->
  Forall min_size_ok (chunks (loop_body cs ov text md st)).
Proof.
  intros H.
  destruct (body_chunks st) as [(Hl & -> & _) | (_ & -> & _)]; [| exact H].
  apply Forall_app. split; [exact H |].
  constructor; [| constructor].
  split; cbn [c_text]; [exact Hl | apply strip_idem].
Qed.

Lemma body_chunks_incl st c :
  In c (chunks st) -> In c (chunks (loop_body cs ov text md st)).
Proof.
  intros H.
  destruct (body_chunks st) as [(_ & -> & _) | (_ & -> & _)]; [| exact H].
  apply in_or_app. left. exact H.
Qed.

Lemma while_loop_chunks_incl fuel st st' c :
  while_loop cs ov text md fuel st = Some st' ->
  In c (chunks st) -> In c (chunks st').
Proof.
  intros Hrun Hin.
  apply (while_loop_invariant cs ov text md
           (fun st0 => In c (chunks st0))) in Hrun; [tauto | | exact Hin].
  intros st0 _. apply body_chunks_incl.
Qed.

Lemma regular_inv_init : regular_inv text init_state.
Proof.
  unfold regular_inv, chunk_records_wf. cbn.
  split; [lia |]. split; [reflexivity |]. split; [split |].
  - intros i c H. destruct i; discriminate.
  - intros i j c d s t H. destruct i; discriminate.
  - intros c s [].
Qed.

Lemma regular_inv_step st :
  0 < cs -> ov < cs -> start st < len text ->
  regular_inv text st -> regular_inv text (loop_body cs ov text md st).
Proof.
  intros Hcs Hov Hlt (Hs & Hid & (Hrec & Hinc) & Hbelow).
  pose proof (body_progress cs ov text md st Hcs Hov (conj Hs Hlt)) as Hp.
  pose proof (window_end_range cs text (start st) Hcs (conj Hs Hlt)) as Hw.
  unfold regular_inv.
  destruct (body_chunks st) as [(Hl & Hch & Hi) | (Hl & Hch & Hi)];
    rewrite Hch, Hi.
  - set (c0 := {| c_text := strip (slice text (start st)
                                      (window_end cs text (start st)));
                  c_metadata := chunk_meta md (chunk_id st) (start st)
                                  (window_end cs text (start st)) |}).
    destruct (chunk_meta_fields
                (strip (slice text (start st) (window_end cs text (start st))))
                (chunk_id st) (start st) (window_end cs text (start st)))
      as (Fid & Fs & Fe).
    fold c0 in Fid, Fs, Fe.
    split; [lia |]. split; [rewrite len_app; unfold len; simpl; unfold len in Hid; lia |].
    split; [split |].
    + intros i c Hi'. apply lookup_app_Some in Hi' as [Hi' | [Hge Hi']].
      * apply Hrec. exact Hi'.
      * destruct (i - length (chunks st))%nat as [|k] eqn:Ek;
          [| destruct k; discriminate].
        injection Hi' as <-.
        exists (start st), (window_end cs text (start st)).
        assert (i = length (chunks st)) as -> by lia.
        rewrite Fid, Fs, Fe. unfold len in Hid. rewrite Hid.
        repeat split; try reflexivity; try lia.
        unfold c0. cbn [c_text]. apply len_strip_slice; lia.
    + intros i j c d s t Hi' Hj' Hij Hsc Hsd.
      apply lookup_app_Some in Hj' as [Hj' | [Hge Hj']].
      * apply lookup_app_Some in Hi' as [Hi' | [Hge' Hi']].
        -- exact (Hinc i j c d s t Hi' Hj' Hij Hsc Hsd).
        -- apply lookup_lt_Some in Hj'. lia.
      * destruct (j - length (chunks st))%nat as [|k] eqn:Ek;
          [| destruct k; discriminate].
        injection Hj' as <-.
        apply lookup_app_Some in Hi' as [Hi' | [Hge' Hi']]; [| lia].
        rewrite Fs in Hsd. injection Hsd as <-.
        apply (Hbelow c s); [| exact Hsc].
        apply list_elem_of_In. eapply list_elem_of_lookup_2. exact Hi'.
    + intros c s Hin Hsc. apply in_app_or in Hin as [Hin | [<- | []]].
      * specialize (Hbelow c s Hin Hsc). lia.
      * rewrite Fs in Hsc. injection Hsc as <-. lia.
  - split; [lia |]. split; [exact Hid |]. split; [split; assumption |].
    intros c s Hin Hsc. specialize (Hbelow c s Hin Hsc). lia.
Qed.

(** Every position from the cursor on is, at the end of the loop, in
    the span of a chunk or in a discarded window. *)
Lemma coverage_from fuel st st' :
  while_loop cs ov text md fuel st = Some st' ->
  forall i, start st <= i < len text ->
    in_chunk_span (chunks st') i \/
    in_discarded_window text (windows_from cs ov text md fuel st) i.
Proof.
  revert st. induction fuel as [|fuel IH]; intros st Hrun i Hi; simpl in *.
  - destruct (start st <? len text) eqn:E; [discriminate |].
    apply Z.ltb_ge in E. lia.
  - destruct (start st <? len text) eqn:E;
      [| apply Z.ltb_ge in E; lia].
    destruct (Z.lt_ge_cases i (start (loop_body cs ov text md st)))
      as [Hlt | Hge].
    + pose proof (body_start_le_end cs ov text md st) as Hle.
      destruct (body_chunks st) as [(Hl & Hch & _) | (Hl & Hch & _)].
      * left.
        destruct (chunk_meta_fields
                    (strip (slice text (start st)
                              (window_end cs text (start st))))
                    (chunk_id st) (start st)
                    (window_end cs text (start st))) as (_ & Fs & Fe).
        eexists _, (start st), (window_end cs text (start st)).
        split; [| split; [exact Fs | split; [exact Fe | lia]]].
        eapply while_loop_chunks_incl; [exact Hrun |].
        rewrite Hch. apply in_or_app. right. left. reflexivity.
      * right. exists (start st), (window_end cs text (start st)).
        split; [left; reflexivity | split; [lia | exact Hl]].
    + destruct (IH _ Hrun i) as [H | (s & e & Hin & H)]; [lia | left; exact H |].
      right. exists s, e. split; [right; exact Hin | exact H].
Qed.

End ChunkRecords.

(* ===================================================================== *)
(** * chunk_text: the output against the windows of the loop *)
(* ===================================================================== *)

Section ChunkWindows.
Variables (cs ov : Z) (text : list N) (md : gmap (list N) pyval).

Lemma spans_from fuel st st' :
  while_loop cs ov text md fuel st = Some st' ->
  exists new,
    chunks st' = chunks st ++ new /\
    map chunk_span new =
    map (window_span text)
      (filter (kept text) (windows_from cs ov text md fuel st)).
Proof.
  revert st. induction fuel as [|fuel IH]; intros st; simpl.
  - destruct (start st <? len text); [discriminate |].
    intros [= <-]. exists []. rewrite app_nil_r. split; reflexivity.
  - destruct (start st <? len text) eqn:E.
    + intros Hrun. destruct (IH _ Hrun) as (new & Hch & Hmap).
      rewrite filter_cons. unfold kept at 1. cbn [fst snd].
      destruct (body_chunks cs ov text md st)
        as [(Hl & Hb & _) | (Hl & Hb & _)]; rewrite Hb in Hch.
      * eexists (_ :: new). rewrite <- app_assoc in Hch.
        split; [exact Hch |].
        destruct (decide _) as [_ | Hn];
          [| exfalso; apply Hn; apply Is_true_true, Z.leb_le; exact Hl].
        cbn [map]. rewrite Hmap. f_equal.
        unfold chunk_span, window_span. cbn [fst snd c_text].
        destruct (chunk_meta_fields md
                    (strip (slice text (start st)
                              (window_end cs text (start st))))
                    (chunk_id st) (start st)
                    (window_end cs text (start st))) as (_ & -> & ->).
        reflexivity.
      * exists new. split; [exact Hch |].
        destruct (decide _) as [Hy | _]; [| exact Hmap].
        apply Is_true_true, Z.leb_le in Hy. lia.
    + intros [= <-]. exists []. rewrite app_nil_r. split; reflexivity.
Qed.

Lemma chunk_text_spans fuel chunks0 :
  chunk_text cs ov text md fuel = Some chunks0 ->
  map chunk_span chunks0 =
  map (window_span text) (filter (kept text) (windows cs ov text md fuel)).
Proof.
  unfold chunk_text, windows. intros H.
  destruct (while_loop cs ov text md fuel init_state) as [st'|] eqn:Hrun;
    [| discriminate].
  injection H as <-.
  destruct (spans_from _ _ _ Hrun) as (new & Hch & Hmap).
  cbn in Hch. rewrite Hch. exact Hmap.
Qed.

Lemma chunk_text_on_empty fuel chunks0 :
  text = [] -> chunk_text cs ov text md fuel = Some chunks0 -> chunks0 = [].
Proof.
  intros ->. unfold chunk_text.
  destruct fuel; vm_compute; intros [= <-]; reflexivity.
Qed.

End ChunkWindows.

(** C9: [chunk_text] returns for a positive size and a smaller overlap,
    and whenever it returns, for any parameters, every chunk has a text
    of at least 100 characters that carries no surrounding white space,
    and the chunks are, in order, the windows of the loop whose trimmed
    text has at least 100 characters: the windows with a shorter trimmed
    text are dropped. *)
Theorem chunk_min_size cs ov text md :
  (0 < cs -> ov < cs ->
   exists chunks0, chunk_text cs ov text md (length text) = Some chunks0) /\
  forall fuel chunks0,
    chunk_text cs ov text md fuel = Some chunks0 ->
    Forall min_size_ok chunks0 /\
    map chunk_span chunks0 =
    map (window_span text) (filter (kept text) (windows cs ov text md fuel)).
Proof.
  split; [apply chunk_text_regular_returns |].
  intros fuel chunks0 H. split; [| apply chunk_text_spans; exact H].
  unfold chunk_text in H.
  destruct (while_loop cs ov text md fuel init_state) as [st'|] eqn:Hrun;
    [| discriminate].
  injection H as <-.
  apply (while_loop_invariant cs ov text md
           (fun st => Forall min_size_ok (chunks st))) in Hrun.
  - tauto.
  - intros st _. apply body_keeps_min_size.
  - constructor.
Qed.

Lemma chunk_min_size_witness :
  chunk_text 120 20 demo_text ∅ 502 = Some demo_chunks /\
  length demo_chunks = 5%nat /\
  Forall min_size_ok demo_chunks.
Proof.
  split; [vm_compute; reflexivity |].
  split; [vm_compute; reflexivity |].
  apply (proj2 (chunk_min_size 120 20 demo_text ∅) 502%nat demo_chunks).
  vm_compute; reflexivity.
Defined.

(** C10: [chunk_text] returns for a positive size and a smaller
    overlap, and whenever it returns, for any parameters, its records are
    well formed: the record at position [i] has [chunk_id = i], offsets
    with [0 <= start_char < end_char <= len(text)] and the text
    [text[start_char:end_char].strip()], of length at most
    [end_char - start_char], and [start_char] increases strictly along
    the output. *)
Theorem chunk_records_well_formed cs ov text md :
  (0 < cs -> ov < cs ->
   exists chunks0, chunk_text cs ov text md (length text) = Some chunks0) /\
  forall fuel chunks0,
    chunk_text cs ov text md fuel = Some chunks0 ->
    chunk_records_wf text chunks0.
Proof.
  split; [apply chunk_text_regular_returns |].
  intros fuel chunks0 H.
  destruct (chunk_text_returns_regular _ _ _ _ _ _ H) as [[Hcs Hov] | Hnil].
  - unfold chunk_text in H.
    destruct (while_loop cs ov text md fuel init_state) as [st'|] eqn:Hrun;
      [| discriminate].
    injection H as <-.
    apply (while_loop_invariant cs ov text md (regular_inv text)) in Hrun.
    + destruct Hrun as ((_ & _ & Hwf & _) & _). exact Hwf.
    + intros st Hlt. apply regular_inv_step; assumption.
    + apply regular_inv_init.
  - rewrite (chunk_text_on_empty _ _ _ _ _ _ Hnil H).
    split.
    + intros i c Hi. destruct i; discriminate.
    + intros i j c d s t Hi. destruct i; discriminate.
Qed.

Lemma chunk_records_well_formed_witness :
  chunk_text 120 20 demo_text ∅ 502 = Some demo_chunks /\
  map (fun c => (chunk_id_of c, start_char c, end_char c)) demo_chunks =
    [(Some 0, Some 0, Some 120); (Some 1, Some 100, Some 220);
     (Some 2, Some 200, Some 302); (Some 3, Some 302, Some 422);
     (Some 4, Some 402, Some 502)] /\
  map (fun c => len (c_text c)) demo_chunks = [120; 120; 101; 120; 100] /\
  chunk_records_wf demo_text demo_chunks.
Proof.
  split; [vm_compute; reflexivity |].
  split; [vm_compute; reflexivity |].
  split; [vm_compute; reflexivity |].
  apply (proj2 (chunk_records_well_formed 120 20 demo_text ∅)
           502%nat demo_chunks).
  vm_compute; reflexivity.
Defined.

(** C3, as stated, fails: a text of three letters gives no chunk at all,
    so its positions lie in no chunk span. *)
Lemma chunk_coverage_counterexample :
  chunk_text 600 150 (lit "abc") ∅ 3 = Some [] /\
  ~ spans_cover_text (lit "abc") [].
Proof.
  split; [vm_compute; reflexivity |].
  intros H. destruct (H 0) as (c & _ & _ & [] & _).
  vm_compute. split; [discriminate | reflexivity].
Qed.

(** C3, amended: [chunk_text] returns for a positive size and a smaller
    overlap, and whenever it returns every position of the text lies in
    the span of a returned chunk or in a window that the loop dropped
    because its trimmed text has fewer than 100 characters; the returned
    chunks are, in order, the windows whose trimmed text has at least 100
    characters. *)
Theorem chunk_coverage cs ov text md :
  (0 < cs -> ov < cs ->
   exists chunks0, chunk_text cs ov text md (length text) = Some chunks0) /\
  forall fuel chunks0,
    chunk_text cs ov text md fuel = Some chunks0 ->
    (forall i, 0 <= i < len text ->
       in_chunk_span chunks0 i \/
       in_discarded_window text (windows cs ov text md fuel) i) /\
    map chunk_span chunks0 =
    map (window_span text) (filter (kept text) (windows cs ov text md fuel)).
Proof.
  split; [apply chunk_text_regular_returns |].
  intros fuel chunks0 H. split; [| apply chunk_text_spans; exact H].
  unfold chunk_text in H.
  destruct (while_loop cs ov text md fuel init_state) as [st'|] eqn:Hrun;
    [| discriminate].
  injection H as <-.
  intros i Hi. apply (coverage_from cs ov text md fuel init_state st' Hrun).
  cbn. exact Hi.
Qed.

Lemma chunk_coverage_witness :
  (forall i, 0 <= i < len short_intro_text ->
     in_chunk_span
       (default [] (chunk_text 120 20 short_intro_text ∅ 204)) i \/
     in_discarded_window short_intro_text
       (windows 120 20 short_intro_text ∅ 204) i) /\
  windows 120 20 short_intro_text ∅ 204 = [(0, 4); (4, 124); (104, 204)] /\
  map (fun c => (start_char c, end_char c))
    (default [] (chunk_text 120 20 short_intro_text ∅ 204)) =
    [(Some 4, Some 124); (Some 104, Some 204)].
Proof.
  split; [| split; vm_compute; reflexivity].
  apply (proj2 (chunk_coverage 120 20 short_intro_text ∅) 204%nat).
  vm_compute; reflexivity.
Defined.

(* ===================================================================== *)
(** * The stable descending sort *)
(* ===================================================================== *)

Section SortFacts.
Context {A : Type} (key : A -> Q).

Lemma insert_desc_perm x l : Permutation (insert_desc key x l) (x :: l).
Proof.
  induction l as [|y l IH]; simpl; [reflexivity |].
  destruct (Qle_bool (key y) (key x)); [reflexivity |].
  rewrite IH. apply perm_swap.
Qed.

Lemma sort_desc_perm l : Permutation (sort_desc key l) l.
Proof.
  induction l as [|x l IH]; simpl; [reflexivity |].
  rewrite insert_desc_perm. constructor. exact IH.
Qed.

Lemma insert_desc_sorted x l :
  StronglySorted (desc key) l ->
  StronglySorted (desc key) (insert_desc key x l).
Proof.
  induction 1 as [|y l Hs IH Hy]; simpl.
  - constructor; constructor.
  - destruct (Qle_bool (key y) (key x)) eqn:E.
    + apply Qle_bool_iff in E.
      constructor; [constructor; assumption |].
      constructor; [exact E |].
      eapply Forall_impl; [exact Hy |].
      intros z Hz. unfold desc in *. lra.
    + assert (key x < key y)%Q as Hlt.
      { apply Qnot_le_lt. intros Hle. apply Qle_bool_iff in Hle. congruence. }
      constructor; [exact IH |].
      apply Forall_forall. intros z Hz.
      rewrite insert_desc_perm in Hz.
      apply elem_of_cons in Hz as [-> | Hz].
      * unfold desc. lra.
      * rewrite Forall_forall in Hy. apply Hy. exact Hz.
Qed.

Lemma sort_desc_sorted l : StronglySorted (desc key) (sort_desc key l).
Proof.
  induction l as [|x l IH]; simpl; [constructor |].
  apply insert_desc_sorted. exact IH.
Qed.

(** Stability: among the elements of one key the order is kept. *)
Lemma insert_desc_stable k x l :
  with_key key k (insert_desc key x l) = with_key key k (x :: l).
Proof.
  unfold with_key. induction l as [|y l IH]; simpl; [reflexivity |].
  destruct (Qle_bool (key y) (key x)) eqn:E; [reflexivity |].
  assert (key x < key y)%Q as Hlt.
  { apply Qnot_le_lt. intros Hle. apply Qle_bool_iff in Hle. congruence. }
  simpl. rewrite IH. simpl.
  destruct (Qeq_bool (key x) k) eqn:Ex; [| reflexivity].
  destruct (Qeq_bool (key y) k) eqn:Ey; [| reflexivity].
  apply Qeq_bool_iff in Ex, Ey. lra.
Qed.

Lemma sort_desc_stable k l :
  with_key key k (sort_desc key l) = with_key key k l.
Proof.
  induction l as [|x l IH]; simpl; [reflexivity |].
  rewrite insert_desc_stable. unfold with_key in *. simpl.
  rewrite IH. reflexivity.
Qed.

Lemma sort_desc_length l : length (sort_desc key l) = length l.
Proof. apply Permutation_length, sort_desc_perm. Qed.

End SortFacts.

(* ===================================================================== *)
(** * search: filter, rank, truncate *)
(* ===================================================================== *)

Section SearchFacts.
Variable F : float_ops.
Variable threshold : Q.
Variable results : reply.

Lemma text_at_row i t :
  first_row (documents results) !! i = Some t -> text_at results i = Ok t.
Proof.
  unfold text_at, first_row.
  destruct (documents results) as [[|r rows]|]; simpl;
    try (intros H; destruct i; discriminate).
  unfold index. simpl. intros ->. reflexivity.
Qed.

Lemma meta_at_row i m :
  meta_row results !! i = Some m -> meta_at results i = Ok m.
Proof.
  unfold meta_at, meta_row, first_row, truthy.
  destruct (metadatas results) as [[|r rows]|]; simpl.
  - intros H. apply list_elem_of_lookup_2, list_elem_of_In, repeat_spec in H.
    subst m. reflexivity.
  - unfold index. simpl. intros ->. reflexivity.
  - intros H. apply list_elem_of_lookup_2, list_elem_of_In, repeat_spec in H.
    subst m. reflexivity.
Qed.

Lemma collect_parallel ds :
  forall i acc,
    (length ds + i <= length (first_row (documents results)))%nat ->
    (length ds + i <= length (meta_row results))%nat ->
    collect F threshold results i ds acc =
    Ok (acc ++ map (to_retrieved F)
                 (List.filter (passes F threshold)
                    (zip3 ds (drop i (first_row (documents results)))
                       (drop i (meta_row results))))).
Proof.
  induction ds as [|d ds IH]; intros i acc Ht Hm; simpl.
  - rewrite app_nil_r. reflexivity.
  - simpl in Ht, Hm.
    destruct (lookup_lt_is_Some_2 (first_row (documents results)) i)
      as [t Hti]; [lia |].
    destruct (lookup_lt_is_Some_2 (meta_row results) i)
      as [m Hmi]; [lia |].
    rewrite (drop_S _ _ _ Hti), (drop_S _ _ _ Hmi). simpl.
    unfold passes at 1, float_similarity at 1. cbn [fst snd].
    destruct (Qle_bool threshold (fsub F 1 (fdiv F d 2))) eqn:E.
    + rewrite (text_at_row _ _ Hti), (meta_at_row _ _ Hmi). simpl.
      rewrite IH by lia. rewrite <- app_assoc. reflexivity.
    + apply IH; lia.
Qed.

(** On a reply of parallel sequences the code computes the kept
    entries, sorted on the stored similarity and sliced. *)
Lemma rank_parallel top_k :
  parallel results ->
  rank F top_k threshold results =
  Ok (slice_to
        (sort_desc similarity (map (to_retrieved F) (kept_entries F threshold results)))
        top_k).
Proof.
  intros [Ht Hm]. unfold rank, kept_entries, entries.
  remember (first_row (distances results)) as d0 eqn:Hd0.
  unfold first_row in Hd0.
  destruct (distances results) as [[|r rows]|]; subst d0;
    try reflexivity.
  destruct r as [|d ds] eqn:Er; [reflexivity |].
  rewrite <- Er in *.
  rewrite collect_parallel by lia.
  rewrite !drop_0. reflexivity.
Qed.

End SearchFacts.

Section SearchRun.
Variable F : float_ops.
Variable embedding : Type.
Variable encode : list N -> embedding.

Lemma search_some coll top_k threshold q tr :
  search F embedding encode (Some coll) top_k threshold q tr =
  (rank F top_k threshold (coll (encode q) 10%nat),
   tr ++ [CallSearch q; Encode q; IndexQuery 10]).
Proof.
  unfold search, mbind, emit, lift. rewrite <- !app_assoc. reflexivity.
Qed.

Lemma search_none top_k threshold q tr :
  search F embedding encode None top_k threshold q tr =
  (Ok [], tr ++ [CallSearch q]).
Proof. reflexivity. Qed.

Lemma collect_monotone t1 t2 results :
  (t1 <= t2)%Q ->
  forall ds i acc1 acc2 l1,
    collect F t1 results i ds acc1 = Ok l1 ->
    (length acc2 <= length acc1)%nat ->
    exists l2,
      collect F t2 results i ds acc2 = Ok l2 /\ (length l2 <= length l1)%nat.
Proof.
  intros Ht. induction ds as [|d ds IH]; intros i acc1 acc2 l1; simpl.
  - intros [= <-] Hacc. eauto.
  - destruct (Qle_bool t2 (fsub F 1 (fdiv F d 2))) eqn:E2.
    + assert (Qle_bool t1 (fsub F 1 (fdiv F d 2)) = true) as ->.
      { apply Qle_bool_iff. apply Qle_bool_iff in E2. lra. }
      destruct (text_at results i) as [t|e]; simpl; [| discriminate].
      destruct (meta_at results i) as [m|e]; simpl; [| discriminate].
      intros H Hacc. apply (IH _ _ _ _ H). rewrite !length_app. simpl. lia.
    + destruct (Qle_bool t1 (fsub F 1 (fdiv F d 2))).
      * destruct (text_at results i) as [t|e]; simpl; [| discriminate].
        destruct (meta_at results i) as [m|e]; simpl; [| discriminate].
        intros H Hacc. apply (IH _ _ _ _ H). rewrite !length_app. simpl. lia.
      * intros H Hacc. apply (IH _ _ _ _ H). exact Hacc.
Qed.

Lemma slice_to_length_monotone {A} (l1 l2 : list A) k :
  (length l2 <= length l1)%nat ->
  (length (slice_to l2 k) <= length (slice_to l1 k))%nat.
Proof.
  intros H.
  pose proof (len_slice_to l1 k) as H1. pose proof (len_slice_to l2 k) as H2.
  unfold len in *. destruct (k <? 0); lia.
Qed.

Lemma rank_monotone top_k t1 t2 results docs1 :
  (t1 <= t2)%Q ->
  rank F top_k t1 results = Ok docs1 ->
  exists docs2,
    rank F top_k t2 results = Ok docs2 /\ (length docs2 <= length docs1)%nat.
Proof.
  intros Ht. unfold rank.
  destruct (distances results) as [[|d0 rows]|]; cbn [bind].
  - intros [= <-]. eauto.
  - destruct d0 as [|d ds]; cbn [bind].
    + intros [= <-]. eauto.
    + destruct (collect F t1 results 0 (d :: ds) []) as [l1|e] eqn:E1;
        cbn [bind]; [| discriminate].
      intros [= <-].
      destruct (collect_monotone t1 t2 results Ht _ _ _ [] _ E1)
        as (l2 & -> & Hlen); [simpl; lia |].
      cbn [bind]. eexists. split; [reflexivity |].
      apply slice_to_length_monotone. rewrite !sort_desc_length. exact Hlen.
  - intros [= <-]. eauto.
Qed.
End SearchRun.

(** C2, as stated, fails on three counts. With [top_k = 1] and the
    reply [close_pair] the code returns entry A, of similarity 0.80001,
    although entry B, of similarity 0.80004, was kept too: the sort
    compares the similarities rounded to three decimals, which tie. With
    [top_k = -1] the slice drops the last of the two kept entries and
    returns a list longer than [top_k]. With the threshold 0.8 and the
    reply [edge_entry] the code keeps an entry whose similarity
    [1 - d/2] is below the threshold: the floating-point subtraction
    gives the float 0.8. *)
Lemma search_ranking_counterexample :
  rank binary64 1 (35 # 100) close_pair =
    Ok [to_retrieved binary64 (b64 (39998 # 100000), lit "A", ∅)] /\
  spec_search 1 (35 # 100) close_pair =
    [(b64 (39992 # 100000), lit "B", ∅)] /\
  (exists docs,
      rank binary64 (-1) (35 # 100) close_pair = Ok docs /\
      ~ len docs <= -1) /\
  rank binary64 5 (b64 (8 # 10)) edge_entry =
    Ok [to_retrieved binary64
          (b64 (39999999999999997 # 100000000000000000), lit "A", ∅)] /\
  spec_search 5 (b64 (8 # 10)) edge_entry = [].
Proof.
  split; [vm_compute; reflexivity |].
  split; [vm_compute; reflexivity |].
  split.
  - eexists. split; [vm_compute; reflexivity |].
    vm_compute. intros H. apply H. reflexivity.
  - split; vm_compute; reflexivity.
Qed.

(** C2, amended: on a reply of parallel sequences and for [top_k >= 0],
    [search] keeps exactly the entries whose similarity, [1 - d/2] as
    the floating-point operations compute it, is at least the threshold,
    stores for each its similarity and distance rounded to three
    decimals by [round], sorts the kept records by the stored (rounded)
    similarity in descending order, records of equal stored similarity
    keeping the order of the index, and returns the first [top_k] of
    them: at most [top_k] records. This holds for every floating-point
    division, subtraction and [round]. *)
Theorem search_ranking (F : float_ops) (embedding : Type) (encode : list N -> embedding)
    coll top_k threshold q tr :
  parallel (coll (encode q) 10%nat) ->
  0 <= top_k ->
  exists sorted,
    Permutation sorted
      (map (to_retrieved F) (kept_entries F threshold (coll (encode q) 10%nat))) /\
    StronglySorted (desc similarity) sorted /\
    (forall k,
        with_key similarity k sorted =
        with_key similarity k
          (map (to_retrieved F) (kept_entries F threshold (coll (encode q) 10%nat)))) /\
    search F embedding encode (Some coll) top_k threshold q tr =
      (Ok (take (Z.to_nat top_k) sorted),
       tr ++ [CallSearch q; Encode q; IndexQuery 10]) /\
    len (take (Z.to_nat top_k) sorted) <= top_k.
Proof.
  intros Hpar Hk.
  exists (sort_desc similarity
            (map (to_retrieved F) (kept_entries F threshold (coll (encode q) 10%nat)))).
  split; [apply sort_desc_perm |].
  split; [apply sort_desc_sorted |].
  split; [intros k; apply sort_desc_stable |].
  split.
  - rewrite search_some, (rank_parallel _ _ _ _ Hpar).
    rewrite slice_to_take by exact Hk. reflexivity.
  - unfold len. rewrite length_take. lia.
Qed.

Lemma search_ranking_witness :
  parallel demo_reply /\
  (exists sorted,
      Permutation sorted
        (map (to_retrieved binary64)
           (kept_entries binary64 (35 # 100) demo_reply)) /\
      search binary64 unit demo_encode (Some demo_collection) 2 (35 # 100)
        (lit "Parle-moi de Carthage") [] =
      (Ok (take 2 sorted),
       [CallSearch (lit "Parle-moi de Carthage");
        Encode (lit "Parle-moi de Carthage"); IndexQuery 10]) /\
      map r_text (take 2 sorted) = [lit "Carthage"; lit "Byrsa"]) /\
  rank binary64 1 (35 # 100) near_pair =
    Ok [{| r_text := lit "A"; r_metadata := ∅;
           similarity := b64 (999 # 1000); distance := b64 (3 # 1000) |}].
Proof.
  assert (parallel demo_reply) as Hpar by (vm_compute; split; reflexivity).
  split; [exact Hpar |].
  split; [| vm_compute; reflexivity].
  destruct (search_ranking binary64 unit demo_encode demo_collection 2
              (35 # 100) (lit "Parle-moi de Carthage") [] Hpar)
    as (sorted & Hperm & _ & _ & Hsearch & _); [lia |].
  exists sorted. split; [exact Hperm |]. split; [exact Hsearch |].
  assert (search binary64 unit demo_encode (Some demo_collection) 2
            (35 # 100) (lit "Parle-moi de Carthage") [] =
          (Ok [to_retrieved binary64
                 (b64 (39998 # 100000), lit "Carthage",
                  {[ lit "site" := VStr (lit "Carthage") ]});
               to_retrieved binary64
                 (b64 (39992 # 100000), lit "Byrsa",
                  {[ lit "site" := VStr (lit "Carthage") ]})],
           [CallSearch (lit "Parle-moi de Carthage");
            Encode (lit "Parle-moi de Carthage"); IndexQuery 10])) as Hrun
    by (vm_compute; reflexivity).
  rewrite Hsearch in Hrun. apply (f_equal fst) in Hrun. cbn [fst] in Hrun.
  injection Hrun as Hdocs. change (Z.to_nat 2) with 2%nat in Hdocs.
  rewrite Hdocs. reflexivity.
Defined.

(** C5: for one query and one reply of the index, raising the threshold
    never increases the number of results: when [search] returns with
    threshold [t1] and [t1 <= t2], it returns with [t2] too, and no more
    results. *)
Theorem threshold_monotone (F : float_ops) (embedding : Type) (encode : list N -> embedding)
    collection top_k t1 t2 q tr docs1 tr1 :
  (t1 <= t2)%Q ->
  search F embedding encode collection top_k t1 q tr = (Ok docs1, tr1) ->
  exists docs2,
    search F embedding encode collection top_k t2 q tr = (Ok docs2, tr1) /\
    (length docs2 <= length docs1)%nat.
Proof.
  intros Ht. destruct collection as [coll|].
  - rewrite !search_some. intros [= Hr <-].
    destruct (rank_monotone F top_k t1 t2 _ _ Ht Hr) as (docs2 & -> & Hlen).
    eauto.
  - rewrite !search_none. intros [= <- <-]. eauto.
Qed.

Lemma threshold_monotone_witness :
  search binary64 unit demo_encode (Some demo_collection) 5 (35 # 100)
    demo_question [] =
    (Ok demo_results,
     [CallSearch demo_question; Encode demo_question; IndexQuery 10]) /\
  length demo_results = 3%nat /\
  exists docs2,
    search binary64 unit demo_encode (Some demo_collection) 5 (7 # 10)
      demo_question [] =
      (Ok docs2,
       [CallSearch demo_question; Encode demo_question; IndexQuery 10]) /\
    (length docs2 <= length demo_results)%nat.
Proof.
  assert (search binary64 unit demo_encode (Some demo_collection) 5 (35 # 100)
            demo_question [] =
          (Ok demo_results,
           [CallSearch demo_question; Encode demo_question; IndexQuery 10]))
    as Hrun by (vm_compute; reflexivity).
  split; [exact Hrun |]. split; [reflexivity |].
  apply (threshold_monotone binary64 unit demo_encode (Some demo_collection) 5
           (35 # 100) (7 # 10) demo_question []); [| exact Hrun].
  vm_compute; discriminate.
Defined.

(* ===================================================================== *)
(** * is_in_scope *)
(* ===================================================================== *)

Lemma is_greeting_iff q : is_greeting q = true <-> greeting_form q.
Proof.
  unfold is_greeting, greeting_form.
  rewrite orb_true_iff, !existsb_exists. split.
  - intros [(g & Hg & He) | (g & Hg & Hs)].
    + left. apply bool_decide_eq_true in He. subst. exact Hg.
    + right. exists g. split; [exact Hg |].
      apply orb_true_iff in Hs. exact Hs.
  - intros [Hq | (g & Hg & Hs)].
    + left. exists q. split; [exact Hq |]. apply bool_decide_eq_true. reflexivity.
    + right. exists g. split; [exact Hg |]. apply orb_true_iff. exact Hs.
Qed.

(** C6: [is_in_scope] is a function of the question alone that tests the
    greeting first: the result is [Greeting] exactly when the lowercased,
    trimmed question equals a greeting phrase or starts with one followed
    by a space or a comma, whatever keywords it contains. ["bonjour"] and
    ["bonjour, parle-moi de Carthage"] are greetings, ["j'aime carthage"]
    is in the domain. *)
Theorem scope_greeting_first (U : unicode) :
  (forall question0,
      is_in_scope U question0 = Greeting <->
      greeting_form (strip (lower U question0))) /\
  is_in_scope U (lit "bonjour") = Greeting /\
  is_in_scope U (lit "bonjour, parle-moi de Carthage") = Greeting /\
  is_in_scope U (lit "j'aime carthage") = InDomain.
Proof.
  split; [| repeat split; vm_compute; reflexivity].
  intros question0. rewrite <- is_greeting_iff. unfold is_in_scope.
  destruct (is_greeting (strip (lower U question0))).
  - split; reflexivity.
  - split; [| discriminate].
    destruct (kerk_search U None _); [discriminate |].
    destruct (existsb _ keywords); discriminate.
Qed.

Lemma scope_greeting_first_witness :
  greeting_form (strip (lower latin1_only (lit "  Salut, Dougga et Carthage "))) /\
  is_in_scope latin1_only (lit "  Salut, Dougga et Carthage ") = Greeting.
Proof.
  assert (greeting_form
            (strip (lower latin1_only (lit "  Salut, Dougga et Carthage "))))
    as H.
  { right. exists (lit "salut"). split; [vm_compute; tauto |].
    right. vm_compute. reflexivity. }
  split; [exact H |].
  apply (proj1 (scope_greeting_first latin1_only)). exact H.
Defined.

(* ===================================================================== *)
(** * query: the cycle and its calls to the outside *)
(* ===================================================================== *)

Section QueryCycle.
Variable F : float_ops.
Variable U : unicode.
Variable embedding : Type.
Variable encode : list N -> embedding.
Variable collection : option (embedding -> nat -> reply).
Variable top_k : Z.
Variable threshold : Q.
Variable llama_model : list N.
Variable temperature : Q.
Variable max_tokens : Z.
Variable ollama_list : pyresult unit.
Variable ollama_generate :
  list N -> list N -> Q -> Z -> pyresult (option (list N)).
Variable str_of_float : Q -> list N.

Lemma search_trace q tr r tr1 :
  search F embedding encode collection top_k threshold q tr = (r, tr1) ->
  exists evs, tr1 = tr ++ evs /\ Forall is_retrieval_event evs.
Proof.
  destruct collection as [coll|].
  - rewrite search_some. intros [= _ <-]. eexists. split; [reflexivity |].
    repeat constructor.
  - rewrite search_none. intros [= _ <-]. eexists. split; [reflexivity |].
    repeat constructor.
Qed.

Lemma search_returns q tr :
  index_reply_parallel encode collection q ->
  exists docs tr1,
    search F embedding encode collection top_k threshold q tr = (Ok docs, tr1).
Proof.
  unfold index_reply_parallel. destruct collection as [coll|]; intros H.
  - rewrite search_some, (rank_parallel _ _ _ _ H). eauto.
  - rewrite search_none. eauto.
Qed.

(** [generate_response] never raises: a failure of the generator
    becomes the text it returns. *)
Lemma generate_response_returns prompt tr :
  exists text evs,
    generate_response llama_model temperature max_tokens ollama_list
      ollama_generate prompt tr = (Ok text, tr ++ evs) /\
    Forall is_generation_event evs /\
    (forall e, ollama_list = Raise e -> text = ollama_unreachable_message) /\
    (forall u e,
        ollama_list = Ok u ->
        ollama_generate llama_model prompt temperature max_tokens = Raise e ->
        text = generation_error_prefix ++ str_of_exn e).
Proof.
  unfold generate_response, mbind, emit, ret.
  destruct ollama_list as [u|e0].
  - destruct (ollama_generate llama_model prompt temperature max_tokens)
      as [response|e1].
    + eexists _, [_; _; _]. rewrite <- !app_assoc.
      split; [reflexivity |]. split; [repeat constructor |].
      split; [discriminate | discriminate].
    + eexists _, [_; _; _]. rewrite <- !app_assoc.
      split; [reflexivity |]. split; [repeat constructor |].
      split; [discriminate |]. intros u' e' _ [= <-]. reflexivity.
  - eexists _, [_; _]. rewrite <- !app_assoc.
    split; [reflexivity |]. split; [repeat constructor |].
    split; [reflexivity | discriminate].
Qed.

(** C1: the result of [query] by case. A greeting and a question out of
    the domain get their fixed message, no source and
    [has_sources = false], and the trace of calls is left as it was:
    neither retrieval nor generation ran. In the domain, an empty
    retrieval gives the fixed no-information message, no source and
    [has_sources = false], after retrieval events only; a non-empty
    retrieval gives the text returned by [generate_response] on the
    assembled prompt, the retrieved documents as sources and
    [has_sources = true]. A result is returned whenever the reply of
    the index holds parallel sequences, and [has_sources] is true
    exactly when retrieval returned a non-empty list. *)
Theorem query_cycle question0 tr :
  (is_in_scope U question0 = Greeting ->
   query F U embedding encode collection top_k threshold llama_model
     temperature max_tokens ollama_list ollama_generate str_of_float
     question0 tr =
   (Ok {| answer := greeting_message; sources := [];
          has_sources := false; question := question0 |}, tr)) /\
  (is_in_scope U question0 = OutOfDomain ->
   query F U embedding encode collection top_k threshold llama_model
     temperature max_tokens ollama_list ollama_generate str_of_float
     question0 tr =
   (Ok {| answer := out_of_scope_message; sources := [];
          has_sources := false; question := question0 |}, tr)) /\
  (forall tr1,
      is_in_scope U question0 = InDomain ->
      search F embedding encode collection top_k threshold question0 tr =
        (Ok [], tr1) ->
      query F U embedding encode collection top_k threshold llama_model
        temperature max_tokens ollama_list ollama_generate str_of_float
        question0 tr =
      (Ok {| answer := no_information_message; sources := [];
             has_sources := false; question := question0 |}, tr1) /\
      exists evs, tr1 = tr ++ evs /\ Forall is_retrieval_event evs) /\
  (forall d docs tr1,
      is_in_scope U question0 = InDomain ->
      search F embedding encode collection top_k threshold question0 tr =
        (Ok (d :: docs), tr1) ->
      exists generated tr2,
        generate_response llama_model temperature max_tokens ollama_list
          ollama_generate (build_prompt str_of_float question0 (d :: docs))
          tr1 = (Ok generated, tr2) /\
        query F U embedding encode collection top_k threshold llama_model
          temperature max_tokens ollama_list ollama_generate str_of_float
          question0 tr =
        (Ok {| answer := generated; sources := d :: docs;
               has_sources := true; question := question0 |}, tr2)) /\
  (index_reply_parallel encode collection question0 ->
   exists r tr',
     query F U embedding encode collection top_k threshold llama_model
       temperature max_tokens ollama_list ollama_generate str_of_float
       question0 tr = (Ok r, tr')) /\
  (forall r tr',
      query F U embedding encode collection top_k threshold llama_model
        temperature max_tokens ollama_list ollama_generate str_of_float
        question0 tr = (Ok r, tr') ->
      question r = question0 /\
      (has_sources r = true <-> sources r <> []) /\
      (has_sources r = true <->
       exists d docs tr1,
         is_in_scope U question0 = InDomain /\
         search F embedding encode collection top_k threshold question0 tr =
           (Ok (d :: docs), tr1))).
Proof.
  assert (forall d docs tr1,
             is_in_scope U question0 = InDomain ->
             search F embedding encode collection top_k threshold question0 tr =
               (Ok (d :: docs), tr1) ->
             exists generated tr2,
               generate_response llama_model temperature max_tokens
                 ollama_list ollama_generate
                 (build_prompt str_of_float question0 (d :: docs)) tr1 =
                 (Ok generated, tr2) /\
               query F U embedding encode collection top_k threshold
                 llama_model temperature max_tokens ollama_list
                 ollama_generate str_of_float question0 tr =
               (Ok {| answer := generated; sources := d :: docs;
                      has_sources := true; question := question0 |}, tr2))
    as Hgen.
  { intros d docs tr1 Hsc Hs.
    destruct (generate_response_returns
                (build_prompt str_of_float question0 (d :: docs)) tr1)
      as (text & evs & Hg & _).
    exists text, (tr1 ++ evs). split; [exact Hg |].
    unfold query. rewrite Hsc. unfold mbind at 1. rewrite Hs.
    unfold mbind. rewrite Hg. reflexivity. }
  assert (forall tr1,
             is_in_scope U question0 = InDomain ->
             search F embedding encode collection top_k threshold question0 tr =
               (Ok [], tr1) ->
             query F U embedding encode collection top_k threshold llama_model
               temperature max_tokens ollama_list ollama_generate
               str_of_float question0 tr =
             (Ok {| answer := no_information_message; sources := [];
                    has_sources := false; question := question0 |}, tr1))
    as Hempty.
  { intros tr1 Hsc Hs. unfold query. rewrite Hsc. unfold mbind.
    rewrite Hs. reflexivity. }
  split; [intros Hsc; unfold query; rewrite Hsc; reflexivity |].
  split; [intros Hsc; unfold query; rewrite Hsc; reflexivity |].
  split; [intros tr1 Hsc Hs; split;
          [apply Hempty; assumption | eapply search_trace; exact Hs] |].
  split; [exact Hgen |].
  split.
  - intros Hpar.
    destruct (is_in_scope U question0) eqn:Hsc;
      try solve [unfold query; rewrite Hsc; unfold ret; eauto].
    destruct (search_returns question0 tr Hpar) as ([|d docs] & tr1 & Hs).
    + rewrite (Hempty _ eq_refl Hs). eauto.
    + destruct (Hgen _ _ _ eq_refl Hs) as (g & tr2 & _ & ->). eauto.
  - intros r tr' Hq.
    destruct (is_in_scope U question0) eqn:Hsc.
    + unfold query in Hq. rewrite Hsc in Hq. injection Hq as <- <-.
      cbn. repeat split; try discriminate; try congruence.
      intros (d & docs & tr1 & Hd & _). discriminate.
    + destruct (search F embedding encode collection top_k threshold
                  question0 tr) as [[[|d docs]|e] tr1] eqn:Hs.
      * rewrite (Hempty _ eq_refl eq_refl) in Hq. injection Hq as <- <-.
        cbn. repeat split; try discriminate; try congruence.
        intros (d & docs & tr2 & _ & Hd). discriminate.
      * destruct (Hgen _ _ _ eq_refl eq_refl) as (g & tr2 & _ & Hq').
        rewrite Hq' in Hq. injection Hq as <- <-.
        cbn. repeat split; try discriminate; eauto.
      * unfold query in Hq. rewrite Hsc in Hq. unfold mbind in Hq.
        rewrite Hs in Hq. discriminate.
    + unfold query in Hq. rewrite Hsc in Hq. injection Hq as <- <-.
      cbn. repeat split; try discriminate; try congruence.
      intros (d & docs & tr1 & Hd & _). discriminate.
Qed.

(** C7: an unavailable dependency does not raise. When [get_collection]
    raised at construction, [search] returns the empty list and [query]
    the no-information result; [generate_response] always returns a
    text; when the generator is unreachable or fails, [query] returns a
    result whose answer is the error text, with the retrieved documents
    as sources. *)
Theorem unavailable_dependency question0 tr :
  (forall e count,
      search F embedding encode (init_collection (Raise e) count) top_k
        threshold question0 tr =
      (Ok [], tr ++ [CallSearch question0])) /\
  (forall e count,
      is_in_scope U question0 = InDomain ->
      query F U embedding encode (init_collection (Raise e) count) top_k
        threshold llama_model temperature max_tokens ollama_list
        ollama_generate str_of_float question0 tr =
      (Ok {| answer := no_information_message; sources := [];
             has_sources := false; question := question0 |},
       tr ++ [CallSearch question0])) /\
  (forall prompt tr0,
      exists text tr1,
        generate_response llama_model temperature max_tokens ollama_list
          ollama_generate prompt tr0 = (Ok text, tr1)) /\
  (forall d docs tr1,
      is_in_scope U question0 = InDomain ->
      search F embedding encode collection top_k threshold question0 tr =
        (Ok (d :: docs), tr1) ->
      (forall e,
          ollama_list = Raise e ->
          exists tr2,
            query F U embedding encode collection top_k threshold llama_model
              temperature max_tokens ollama_list ollama_generate
              str_of_float question0 tr =
            (Ok {| answer := ollama_unreachable_message;
                   sources := d :: docs; has_sources := true;
                   question := question0 |}, tr2)) /\
      (forall u e,
          ollama_list = Ok u ->
          ollama_generate llama_model
            (build_prompt str_of_float question0 (d :: docs))
            temperature max_tokens = Raise e ->
          exists tr2,
            query F U embedding encode collection top_k threshold llama_model
              temperature max_tokens ollama_list ollama_generate
              str_of_float question0 tr =
            (Ok {| answer := generation_error_prefix ++ str_of_exn e;
                   sources := d :: docs; has_sources := true;
                   question := question0 |}, tr2))).
Proof.
  split; [intros e count; apply search_none |].
  split; [| split].
  - intros e count Hsc. cbn [init_collection]. unfold query.
    rewrite Hsc. unfold mbind. rewrite search_none. reflexivity.
  - intros prompt tr0.
    destruct (generate_response_returns prompt tr0)
      as (text & evs & Hg & _).
    eauto.
  - intros d docs tr1 Hsc Hs.
    destruct (generate_response_returns
                (build_prompt str_of_float question0 (d :: docs)) tr1)
      as (text & evs & Hg & _ & Hlist & Hfail).
    assert (query F U embedding encode collection top_k threshold llama_model
              temperature max_tokens ollama_list ollama_generate
              str_of_float question0 tr =
            (Ok {| answer := text; sources := d :: docs;
                   has_sources := true; question := question0 |},
             tr1 ++ evs)) as Hq.
    { unfold query. rewrite Hsc. unfold mbind at 1. rewrite Hs.
      unfold mbind. rewrite Hg. reflexivity. }
    split.
    + intros e He. rewrite <- (Hlist e He). eauto.
    + intros u e Hu He. rewrite <- (Hfail u e Hu He). eauto.
Qed.

End QueryCycle.

Lemma demo_search_run :
  search binary64 unit demo_encode (Some demo_collection) 5 (35 # 100)
    demo_question [] =
  (Ok demo_results,
   [CallSearch demo_question; Encode demo_question; IndexQuery 10]).
Proof. vm_compute; reflexivity. Qed.

Lemma query_cycle_witness :
  is_in_scope latin1_only demo_question = InDomain /\
  exists generated tr2,
    query binary64 latin1_only unit demo_encode (Some demo_collection) 5 (35 # 100)
      (lit "llama3") (3 # 10) 512 (Ok tt) demo_generate demo_float
      demo_question [] =
    (Ok {| answer := generated; sources := demo_results;
           has_sources := true; question := demo_question |}, tr2) /\
    generated = lit "Carthage fut fondée par les Phéniciens.".
Proof.
  assert (is_in_scope latin1_only demo_question = InDomain) as Hsc
    by (vm_compute; reflexivity).
  split; [exact Hsc |].
  pose proof demo_search_run as Hs.
  unfold demo_results in Hs |- *.
  destruct (proj1 (proj2 (proj2 (proj2
              (query_cycle binary64 latin1_only unit demo_encode (Some demo_collection)
                 5 (35 # 100) (lit "llama3") (3 # 10) 512 (Ok tt)
                 demo_generate demo_float demo_question []))))
              _ _ _ Hsc Hs)
    as (generated & tr2 & Hg & Hq).
  exists generated, tr2. split; [exact Hq |].
  assert (generate_response (lit "llama3") (3 # 10) 512 (Ok tt) demo_generate
            (build_prompt demo_float demo_question demo_results)
            [CallSearch demo_question; Encode demo_question; IndexQuery 10] =
          (Ok (lit "Carthage fut fondée par les Phéniciens."),
           [CallSearch demo_question; Encode demo_question; IndexQuery 10;
            CallGenerate (build_prompt demo_float demo_question demo_results);
            OllamaList;
            OllamaGenerate (build_prompt demo_float demo_question demo_results)]))
    as Hrun by (vm_compute; reflexivity).
  unfold demo_results in Hrun.
  rewrite Hg in Hrun. injection Hrun as -> _. reflexivity.
Defined.

Lemma unavailable_dependency_witness :
  search binary64 unit demo_encode
    (init_collection (Raise (ExternalError (lit "Collection does not exist")))
       (fun _ => Ok 0%nat))
    5 (35 # 100) demo_question [] =
    (Ok [], [CallSearch demo_question]) /\
  exists tr2,
    query binary64 latin1_only unit demo_encode (Some demo_collection) 5 (35 # 100)
      (lit "llama3") (3 # 10) 512
      (Raise (ExternalError (lit "Connection refused")))
      demo_generate demo_float demo_question [] =
    (Ok {| answer := ollama_unreachable_message; sources := demo_results;
           has_sources := true; question := demo_question |}, tr2).
Proof.
  assert (is_in_scope latin1_only demo_question = InDomain) as Hsc
    by (vm_compute; reflexivity).
  pose proof demo_search_run as Hs.
  unfold demo_results in Hs |- *.
  pose proof (unavailable_dependency binary64 latin1_only unit demo_encode
                (Some demo_collection) 5 (35 # 100) (lit "llama3") (3 # 10)
                512 (Raise (ExternalError (lit "Connection refused")))
                demo_generate demo_float demo_question [])
    as (Hnone & _ & _ & Hfail).
  split; [apply Hnone |].
  apply (proj1 (Hfail _ _ _ Hsc Hs)
           (ExternalError (lit "Connection refused")) eq_refl).
Defined.

(* ===================================================================== *)
(** * The ingestion run and the vector index *)
(* ===================================================================== *)

Section IngestionFacts.
Variable embedding : Type.
Variable encode_batch : list (list N) -> list embedding.
Variable extract_metadata : list N -> list N -> gmap (list N) pyval.
Variable now : Z.

(** The constructor always succeeds and leaves the collection empty,
    whatever it held. *)
Lemma ingester_init_resets model db_path cs ov name (w : world embedding) :
  exists w1,
    ingester_init model db_path cs ov name w =
      Ok ({| chunk_size := cs; chunk_overlap := ov;
             collection_name := name |}, w1) /\
    store w1 = <[name := []]> (store w).
Proof.
  unfold ingester_init, delete_collection. cbn [logging store].
  destruct (store w !! name) eqn:E.
  - unfold create_collection, logging. cbn [store].
    rewrite lookup_delete_eq. eexists. split; [reflexivity |].
    cbn [store]. apply insert_delete_eq.
  - unfold create_collection, logging. cbn [store]. rewrite E. eexists.
    split; [reflexivity |]. reflexivity.
Qed.

Lemma load_files_store files :
  forall docs0 (w : world embedding),
    store (snd (load_files extract_metadata files docs0 w)) = store w.
Proof.
  induction files as [|[name [c|e]] files IH]; intros docs0 w;
    cbn [load_files].
  - reflexivity.
  - rewrite IH. reflexivity.
  - rewrite IH. reflexivity.
Qed.

Lemma load_files_documents files :
  forall docs0 (w w' : world embedding),
    fst (load_files extract_metadata files docs0 w) =
    fst (load_files extract_metadata files docs0 w').
Proof.
  induction files as [|[name [c|e]] files IH]; intros docs0 w w';
    cbn [load_files].
  - reflexivity.
  - apply IH.
  - apply IH.
Qed.

(** The loop over the documents collects their chunk set and only
    writes to the log. *)
Lemma chunk_documents_all ing fuel docs :
  forall chunks0 acc (w : world embedding),
    all_chunks ing fuel docs = Some chunks0 ->
    exists w',
      chunk_documents ing fuel docs acc w = Some (acc ++ chunks0, w') /\
      store w' = store w.
Proof.
  induction docs as [|d docs IH]; intros chunks0 acc w;
    cbn [all_chunks chunk_documents].
  - intros [= <-]. rewrite app_nil_r. eauto.
  - destruct (chunk_text _ _ _ _ fuel) as [cs1|]; [| discriminate].
    destruct (all_chunks ing fuel docs) as [rest|]; [| discriminate].
    intros [= <-].
    destruct (IH rest (acc ++ cs1)
                (logging
                   (LogInfo (lit "  📝 " ++ filename d ++ lit ": " ++
                             str_of_Z (len cs1) ++ lit " chunks")) w)
                eq_refl) as (w' & -> & Hst).
    rewrite <- app_assoc. eauto.
Qed.

(** C8, amended: when the documents give no chunk, [index_documents]
    returns normally, its last log record is the warning, and it leaves
    the store as it was: it adds nothing. The run as a whole does change
    the index: the constructor has deleted the collection and created it
    again, so after the run the collection is empty, whatever it held
    before. *)
Theorem empty_chunk_set ing fuel docs (w : world embedding) :
  all_chunks ing fuel docs = Some [] ->
  (exists w',
      index_documents encode_batch now ing fuel docs w = Some w' /\
      store w' = store w /\
      last (log w') = Some no_chunk_warning) /\
  forall model db_path cs ov f files d docs' w0,
    ing = {| chunk_size := cs; chunk_overlap := ov;
             collection_name := default_collection |} ->
    docs = d :: docs' ->
    fst (load_documents extract_metadata (f :: files) w0) = docs ->
    exists w',
      main encode_batch extract_metadata now model db_path cs ov fuel
        (f :: files) w0 = Some (Ok w') /\
      store w' = <[default_collection := []]> (store w0) /\
      last (log w') = Some no_chunk_warning.
Proof.
  intros Hchunks.
  assert (forall w0 : world embedding,
             exists w',
               index_documents encode_batch now ing fuel docs w0 = Some w' /\
               store w' = store w0 /\
               last (log w') = Some no_chunk_warning) as Hidx.
  { intros w0. unfold index_documents.
    destruct (chunk_documents_all ing fuel docs [] []
                (logging
                   (LogInfo (lit "🚀 Début de l'indexation de " ++
                             str_of_Z (len docs) ++ lit " documents")) w0)
                Hchunks) as (w1 & -> & Hst).
    cbn [app]. eexists. split; [reflexivity |].
    split; [cbn [logging store]; exact Hst |].
    cbn [logging log]. apply last_snoc. }
  split; [apply Hidx |].
  intros model db_path cs ov f files d docs' w0 Hing Hdocs Hload.
  destruct (ingester_init_resets model db_path cs ov default_collection w0)
    as (w1 & Hinit & Hstore).
  rewrite <- Hing in Hinit.
  unfold main. rewrite Hinit.
  destruct (load_documents extract_metadata (f :: files) w1)
    as [docs1 w2] eqn:Hl.
  assert (docs1 = docs) as ->.
  { rewrite <- Hload. change docs1 with (fst (docs1, w2)). rewrite <- Hl.
    unfold load_documents. apply load_files_documents. }
  assert (store w2 = store w1) as Hst2.
  { change w2 with (snd (docs, w2)). rewrite <- Hl.
    unfold load_documents. rewrite load_files_store. reflexivity. }
  rewrite Hdocs. rewrite <- Hdocs.
  destruct (Hidx w2) as (w' & -> & Hst & Hlast).
  exists w'. split; [reflexivity |].
  split; [congruence | exact Hlast].
Qed.

End IngestionFacts.

(** C8, as stated, fails: a run whose documents give no chunk logs the
    warning, and the collection that held one entry before the run holds
    none after it. *)
Lemma empty_chunk_set_counterexample :
  collection_count default_collection indexed_world = Some 1%nat /\
  exists w',
    main no_embeddings no_metadata 1700000000 demo_model demo_db_path
      600 150 29 short_corpus indexed_world = Some (Ok w') /\
    last (log w') = Some no_chunk_warning /\
    collection_count default_collection w' = Some 0%nat.
Proof.
  split; [vm_compute; reflexivity |].
  eexists. split; [vm_compute; reflexivity |].
  split; vm_compute; reflexivity.
Qed.

Lemma empty_chunk_set_witness :
  exists w',
    main no_embeddings no_metadata 1700000000 demo_model demo_db_path
      600 150 29 short_corpus indexed_world = Some (Ok w') /\
    store w' = <[default_collection := []]> (store indexed_world) /\
    last (log w') = Some no_chunk_warning.
Proof.
  apply (proj2
           (empty_chunk_set unit no_embeddings no_metadata 1700000000
              {| chunk_size := 600; chunk_overlap := 150;
                 collection_name := default_collection |}
              29
              [{| content := lit "Carthage est un site punique.";
                  doc_metadata := ∅; filename := lit "carthage.txt" |}]
              indexed_world ltac:(vm_compute; reflexivity))
           demo_model demo_db_path 600 150
           (lit "carthage.txt", Ok (lit "Carthage est un site punique."))
           [] _ [] indexed_world eq_refl eq_refl).
  vm_compute. reflexivity.
Defined.

(* ===================================================================== *)
(** * chunk_text: the number of iterations *)
(* ===================================================================== *)

Section ChunkSteps.
Variables (cs ov : Z) (text : list N) (md : gmap (list N) pyval).

Lemma advance_done st :
  len text <= start st -> advance cs ov text md st = st.
Proof.
  intros H. unfold advance.
  destruct (start st <? len text) eqn:E; [| reflexivity].
  apply Z.ltb_lt in E. lia.
Qed.

Lemma iter_advance_done n st :
  len text <= start st -> Nat.iter n (advance cs ov text md) st = st.
Proof.
  intros H. induction n as [|n IH]; simpl; [reflexivity |].
  rewrite IH. apply advance_done. exact H.
Qed.

(** The loop on fuel [n] is [n] applications of [advance], and returns
    when the condition fails after them. *)
Lemma while_loop_advance fuel :
  forall st,
    while_loop cs ov text md fuel st =
    if start (Nat.iter fuel (advance cs ov text md) st) <? len text
    then None else Some (Nat.iter fuel (advance cs ov text md) st).
Proof.
  induction fuel as [|fuel IH]; intros st.
  - simpl. destruct (start st <? len text); reflexivity.
  - rewrite Nat.iter_succ_r. cbn [while_loop].
    destruct (start st <? len text) eqn:E.
    + assert (advance cs ov text md st = loop_body cs ov text md st) as ->
        by (unfold advance; rewrite E; reflexivity).
      apply IH.
    + assert (len text <= start st) as Hge by (apply Z.ltb_ge; exact E).
      rewrite advance_done by exact Hge.
      rewrite iter_advance_done by exact Hge. rewrite E. reflexivity.
Qed.

Lemma advance_monotone st :
  0 < cs -> ov < cs -> 0 <= start st ->
  start st <= start (advance cs ov text md st).
Proof.
  intros Hcs Hov Hs. unfold advance.
  destruct (start st <? len text) eqn:E; [| lia].
  apply Z.ltb_lt in E.
  pose proof (body_progress cs ov text md st Hcs Hov (conj Hs E)). lia.
Qed.

Lemma iter_advance_monotone n st :
  0 < cs -> ov < cs -> 0 <= start st ->
  start st <= start (Nat.iter n (advance cs ov text md) st).
Proof.
  intros Hcs Hov Hs. induction n as [|n IH]; simpl; [lia |].
  pose proof (advance_monotone (Nat.iter n (advance cs ov text md) st)
                Hcs Hov). lia.
Qed.

(** How the cut was chosen: no delimiter was found, or the first one
    found, after those that were not. *)
Lemma natural_cut_cases s e0 ps :
  (natural_cut text s e0 ps = e0 /\
   forall p, In p ps -> rfind text p s e0 = -1) \/
  (exists pre p post,
      ps = pre ++ p :: post /\
      (forall p', In p' pre -> rfind text p' s e0 = -1) /\
      rfind text p s e0 <> -1 /\
      natural_cut text s e0 ps = rfind text p s e0 + len p).
Proof.
  induction ps as [|p ps IH]; simpl.
  - left. split; [reflexivity | intros p []].
  - destruct (rfind text p s e0 =? -1) eqn:E.
    + apply Z.eqb_eq in E.
      destruct IH as [[Hc Hn] | (pre & p0 & post & -> & Hpre & Hp & Hc)].
      * left. split; [exact Hc |]. intros p' [<- | Hin]; auto.
      * right. exists (p :: pre), p0, post.
        split; [reflexivity |]. split; [| split; assumption].
        intros p' [<- | Hin]; auto.
    + apply Z.eqb_neq in E. right. exists [], p, ps.
      split; [reflexivity |]. split; [intros p' [] |].
      split; [exact E | reflexivity].
Qed.

Lemma rfind_none_no_occurrence p s e0 q :
  0 <= s -> 0 <= e0 <= len text ->
  rfind text p s e0 = -1 ->
  s <= q -> q + len p <= e0 -> ~ occurs text p q.
Proof.
  intros Hs He0 Hr Hq1 Hq2 Ho.
  pose proof (rfind_highest text p s e0 q) as H.
  rewrite adjust_start_id, adjust_id in H by lia.
  specialize (H Hq1 Hq2 Ho). lia.
Qed.

(** One iteration, seen from a bound [B] inside the window: the cursor
    reaches the end of the text, or advances by the full step or up to
    [B], or it moves to a cut before [B], and then one more delimiter
    of the list is known not to occur between the cursor and [B]. *)
Lemma chain_step st B j :
  0 < cs -> ov < cs -> 0 <= start st < len text ->
  B <= start st + cs ->
  no_delimiter text (take j puncts) (start st) B ->
  len text <= start (loop_body cs ov text md st) \/
  Z.min (start st + (cs - ov)) B <= start (loop_body cs ov text md st) \/
  ((j < 5)%nat /\
   start st < start (loop_body cs ov text md st) /\
   no_delimiter text (take (S j) puncts)
     (start (loop_body cs ov text md st)) B).
Proof.
  intros Hcs Hov Hs HB Hno.
  pose proof (body_progress cs ov text md st Hcs Hov Hs) as Hprog.
  rewrite body_start_min in *.
  set (s := start st) in *.
  destruct (Z.le_gt_cases B (window_end cs text s)) as [Hle | Hlt];
    [right; left; lia |].
  unfold window_end in Hlt |- *.
  set (e0 := Z.min (s + cs) (len text)) in *.
  destruct (e0 <? len text) eqn:E.
  2:{ apply Z.ltb_ge in E.
      destruct (Z.le_gt_cases (len text) (s + (cs - ov)));
        [left; lia | right; left; lia]. }
  apply Z.ltb_lt in E.
  assert (e0 = s + cs) as He0 by (unfold e0; lia).
  destruct (natural_cut_cases s e0 puncts)
    as [[Hc _] | (pre & p & post & Hps & Hpre & Hp & Hc)];
    rewrite Hc in *; [lia |].
  destruct (rfind_found _ _ _ _ Hp) as (H1 & H2 & Hocc).
  rewrite adjust_start_id in H1 by lia.
  rewrite adjust_id in H2 by lia.
  set (r := rfind text p s e0) in *.
  assert (1 <= len p) as Hlen.
  { pose proof puncts_nonempty as Hne. rewrite Forall_forall in Hne.
    apply Hne. rewrite Hps. apply list_elem_of_In, in_or_app.
    right. left. reflexivity. }
  destruct (Z.le_gt_cases (r + len p) (s + (cs - ov))) as [Hcap | Hfull];
    [| right; left; lia].
  right. right.
  rewrite Z.min_r in * by lia.
  assert (j <= length pre)%nat as Hj.
  { destruct (Nat.le_gt_cases j (length pre)) as [H | H]; [exact H |].
    exfalso. apply (Hno p r); [| lia | lia | exact Hocc].
    apply list_elem_of_In, elem_of_take. exists (length pre).
    split; [| exact H]. rewrite Hps. apply list_lookup_middle. reflexivity. }
  assert (length puncts = 5%nat) as Hl5 by reflexivity.
  rewrite Hps, length_app in Hl5. simpl in Hl5.
  split; [lia |]. split; [lia |].
  intros p' q Hin Hq1 Hq2 Ho.
  apply list_elem_of_In, elem_of_take in Hin as (i & Hi & Hilt).
  rewrite Hps in Hi. apply lookup_app_Some in Hi as [Hi | [Hge Hi]].
  - apply (rfind_none_no_occurrence p' s e0 q); try lia; try exact Ho.
    apply Hpre. apply list_elem_of_In. eapply list_elem_of_lookup_2. exact Hi.
  - assert (i - length pre = 0)%nat as Hz by lia.
    rewrite Hz in Hi. injection Hi as <-.
    pose proof (rfind_highest text p s e0 q) as Hh.
    rewrite adjust_start_id, adjust_id in Hh by lia.
    assert (q <= rfind text p s e0) by (apply Hh; [lia | lia | exact Ho]).
    fold r in H. lia.
Qed.

End ChunkSteps.

Section ChunkBound.
Variables (cs ov : Z) (text : list N) (md : gmap (list N) pyval).
Hypothesis Hcs : 0 < cs.
Hypothesis Hov : ov < cs.

(** The first of [n + 1] iterations either settles the matter or
    hands over to the remaining [n] with one more delimiter excluded. *)
Lemma chain_head n j st s0 :
  0 <= s0 <= start st ->
  no_delimiter text (take j puncts) (start st) (s0 + cs) ->
  (len text <= start (Nat.iter (S n) (advance cs ov text md) st) \/
   s0 + Z.min (cs - ov) cs <=
     start (Nat.iter (S n) (advance cs ov text md) st)) \/
  ((j < 5)%nat /\
   Nat.iter (S n) (advance cs ov text md) st =
     Nat.iter n (advance cs ov text md) (loop_body cs ov text md st) /\
   start st < start (loop_body cs ov text md st) /\
   no_delimiter text (take (S j) puncts)
     (start (loop_body cs ov text md st)) (s0 + cs)).
Proof.
  intros Hs0 Hno. rewrite Nat.iter_succ_r.
  destruct (Z.le_gt_cases (len text) (start st)) as [Hdone | Hlt].
  { left. left. rewrite advance_done by exact Hdone.
    rewrite iter_advance_done by exact Hdone. exact Hdone. }
  assert (advance cs ov text md st = loop_body cs ov text md st) as ->
    by (unfold advance; apply Z.ltb_lt in Hlt; rewrite Hlt; reflexivity).
  assert (0 <= start st < len text) as Hs by lia.
  pose proof (body_progress cs ov text md st Hcs Hov Hs) as Hprog.
  pose proof (iter_advance_monotone cs ov text md n
                (loop_body cs ov text md st) Hcs Hov) as Hmono.
  destruct (chain_step cs ov text md st (s0 + cs) j Hcs Hov Hs)
    as [H | [H | (Hj5 & Hadv & Hno')]]; [lia | exact Hno | | |].
  - left. left. rewrite iter_advance_done by exact H. exact H.
  - left. right. lia.
  - right. auto.
Qed.

(** From a cursor [s0], with [j] delimiters already excluded, [6 - j]
    iterations reach the end of the text or advance by the smaller of
    the step and the size. *)
Lemma chain n :
  forall j st s0,
    (j + n = 5)%nat ->
    0 <= s0 <= start st ->
    no_delimiter text (take j puncts) (start st) (s0 + cs) ->
    len text <= start (Nat.iter (S n) (advance cs ov text md) st) \/
    s0 + Z.min (cs - ov) cs <=
      start (Nat.iter (S n) (advance cs ov text md) st).
Proof.
  induction n as [|n IH]; intros j st s0 Hj Hs0 Hno.
  - destruct (chain_head 0 j st s0 Hs0 Hno) as [H | (Hj5 & _)];
      [exact H | lia].
  - destruct (chain_head (S n) j st s0 Hs0 Hno)
      as [H | (Hj5 & -> & Hadv & Hno')]; [exact H |].
    apply (IH (S j)); [lia | lia | exact Hno'].
Qed.

Lemma six_steps st :
  0 <= start st ->
  len text <= start (Nat.iter 6 (advance cs ov text md) st) \/
  start st + Z.min (cs - ov) cs <=
    start (Nat.iter 6 (advance cs ov text md) st).
Proof.
  intros Hs. apply (chain 5 0%nat st (start st)); [reflexivity | lia |].
  intros p q [].
Qed.

(** [6 k] iterations are enough when the rest of the text is at most
    [k] times the smaller of the step and the size. *)
Lemma steps_bound k :
  forall st,
    0 <= start st ->
    len text - start st <= Z.of_nat k * Z.min (cs - ov) cs ->
    len text <= start (Nat.iter (6 * k) (advance cs ov text md) st).
Proof.
  induction k as [|k IH]; intros st Hs Hk.
  - simpl. lia.
  - replace (6 * S k)%nat with (6 * k + 6)%nat by lia.
    rewrite Nat.iter_add.
    pose proof (iter_advance_monotone cs ov text md 6 st Hcs Hov Hs) as Hm.
    destruct (six_steps st Hs) as [Hdone | Hadv].
    + rewrite iter_advance_done by exact Hdone. exact Hdone.
    + apply IH; [lia | lia].
Qed.

Lemma chunk_text_within k :
  len text <= Z.of_nat k * Z.min (cs - ov) cs ->
  exists chunks0, chunk_text cs ov text md (6 * k) = Some chunks0.
Proof.
  intros Hk. unfold chunk_text. rewrite while_loop_advance.
  pose proof (steps_bound k init_state) as H. cbn [start init_state] in H.
  specialize (H ltac:(lia) ltac:(lia)).
  apply Z.ltb_ge in H. rewrite H. eauto.
Qed.

End ChunkBound.

(** C4, as stated, fails in its second part: with an overlap equal to the
    size the cursor does not move, and [chunk_text] returns for no
    amount of fuel. *)
Lemma chunk_termination_counterexample :
  ~ exists fuel chunks0, chunk_text 5 5 (lit "a") ∅ fuel = Some chunks0.
Proof.
  intros (fuel & chunks0 & H).
  rewrite chunk_text_diverges in H; [discriminate | lia |].
  vm_compute. discriminate.
Qed.

(** C4, amended: for a positive size and an overlap smaller than the
    size, [chunk_text] returns on a text of [N] characters after at most
    [N] iterations, and after at most [6 (N / min(step, size) + 1)]
    iterations, where [step = size - overlap]; for an overlap that is not
    negative this is [6 (N / (size - overlap) + 1)]. For an overlap of
    the size or more, [chunk_text] does not return on a non-empty text:
    the test [start >= end] only caps the advance at the end of the
    window. *)
Theorem chunk_termination cs ov text md :
  0 < cs ->
  (ov < cs ->
   (exists chunks0, chunk_text cs ov text md (length text) = Some chunks0) /\
   (exists chunks0,
       chunk_text cs ov text md
         (6 * Z.to_nat (len text / Z.min (cs - ov) cs + 1)) = Some chunks0) /\
   (0 <= ov ->
    exists chunks0,
      chunk_text cs ov text md
        (6 * Z.to_nat (len text / (cs - ov) + 1)) = Some chunks0)) /\
  (cs <= ov -> text <> [] ->
   forall fuel, chunk_text cs ov text md fuel = None).
Proof.
  intros Hcs. split.
  - intros Hov.
    assert (exists chunks0,
               chunk_text cs ov text md
                 (6 * Z.to_nat (len text / Z.min (cs - ov) cs + 1)) =
               Some chunks0) as Hb.
    { apply (chunk_text_within cs ov text md Hcs Hov).
      pose proof (len_nonneg text) as Hn.
      set (m := Z.min (cs - ov) cs). assert (0 < m) as Hm by (unfold m; lia).
      pose proof (Z.div_pos (len text) m Hn Hm) as Hq.
      rewrite Z2Nat.id by lia.
      pose proof (Z.mod_pos_bound (len text) m Hm) as Hmod.
      pose proof (Z.div_mod (len text) m ltac:(lia)) as Hdm. nia. }
    split; [| split; [exact Hb |]].
    + apply chunk_text_regular_returns; assumption.
    + intros Hov0. rewrite Z.min_l in Hb by lia. exact Hb.
  - intros Hov Hne fuel. apply chunk_text_diverges; [lia | exact Hne].
Qed.

Lemma chunk_termination_witness :
  (exists chunks0, chunk_text 120 20 demo_text ∅ 36 = Some chunks0) /\
  (forall fuel, chunk_text 5 7 (lit "a") ∅ fuel = None).
Proof.
  split.
  - apply (proj1 (chunk_termination 120 20 demo_text ∅ ltac:(lia))
             ltac:(lia)).
    lia.
  - apply (proj2 (chunk_termination 5 7 (lit "a") ∅ ltac:(lia))); [lia |].
    vm_compute. discriminate.
Defined.
